(** * A Bloom filter over a bank of seeded murmur3 hashers (bloom.go)

    Shallow embedding of [bloom.go]: the [BloomFilter] struct, its
    constructor [NewBloomFilter], the methods [Info], [ComputeMurmurHash],
    [Add] and [Exists], the size sweep of [main], [generateDataset], the
    trial [PerformTests] and the selection of the best record in [main].

    Go values are modelled as follows.
    - [int], [int32], [uint32], [uint64] are [Z]; conversions write their
      wrap-around out ([int32_of_int], [uint64_of_int32]).
    - [[]bool] is [list bool], read with [!!] and written with [<[_:=_]>];
      an index outside the slice is the run-time panic Go raises.
    - [string] is [string], [[]byte(key)] is [String.list_byte_of_string key].
    - [map[string]bool] and [map[string]any] are [gmap string _].
    - a run-time panic is the [Panic] branch of [result].
    - a method with a pointer receiver is a computation in the monad [M],
      which threads the filter and stops at the first panic.
    - [float64] is an abstract type with the operations the driver uses
      (class [Float64]); the goroutines, the wait group and the channel
      are not modelled: a trial is a function, its value the record it
      sends. *)

From Stdlib Require Import ZArith Lia.
From Stdlib.Strings Require Import Byte.
From Stdlib Require QArith.
From stdpp Require Import base tactics option list gmap strings pretty.
From Equations Require Import Equations.

Local Open Scope Z_scope.

(** ** Machine integers *)

Definition int32_min : Z := - 2 ^ 31.
Definition int32_max : Z := 2 ^ 31 - 1.
Definition uint64_modulus : Z := 2 ^ 64.

(** [int32(x)] for [x : int]: keeps the low 32 bits, read as signed. *)
Definition int32_of_int (x : Z) : Z := (x + 2 ^ 31) mod 2 ^ 32 - 2 ^ 31.

(** [uint64(x)] for [x : int32]: sign extension, read as unsigned. *)
Definition uint64_of_int32 (x : Z) : Z := x mod uint64_modulus.

(** ** Panics and results *)

Inductive panic : Set :=
| PanicMakesliceLen      (* makeslice: len out of range *)
| PanicDivideByZero      (* integer divide by zero *)
| PanicIndexOutOfRange.  (* index out of range *)

Inductive result (A : Type) : Type :=
| Ok (a : A)
| Panic (p : panic).
Arguments Ok {A} a.
Arguments Panic {A} p.

(** ** The murmur3.Hash128 interface

    [github.com/spaolacci/murmur3] is an imported package.  The filter
    uses four entry points of it: the constructor [New128WithSeed] and the
    methods [Write], [Sum128] and [Reset] of the interface [Hash128].  The
    hasher is kept abstract: [H] is the state of one hasher object. *)

Class Hash128 (H : Type) : Type := {
  New128WithSeed : Z -> H;          (* seed : uint32 *)
  Write : H -> list Byte.byte -> H; (* the hasher after absorbing the bytes *)
  Sum128 : H -> Z * Z;              (* the two uint64 halves, state unchanged *)
  Reset : H -> H
}.

(** The part of the [hash.Hash] contract the filter relies on: [Reset]
    brings a hasher back to the state its constructor left it in, and the
    halves of a digest are [uint64] values. *)
Class Hash128Laws (H : Type) `{Hash128 H} : Prop := {
  Reset_Write_New :
    forall (seed : Z) (p : list Byte.byte),
      Reset (Write (New128WithSeed seed) p) = New128WithSeed seed;
  Sum128_uint64 :
    forall h : H,
      0 <= fst (Sum128 h) < uint64_modulus /\
      0 <= snd (Sum128 h) < uint64_modulus
}.

(** ** The filter *)

Record BloomFilter (H : Type) : Type := mkBloomFilter {
  Store : list bool;
  Size : Z;                (* int32 *)
  mHashers : list H
}.
Arguments mkBloomFilter {H} _ _ _.
Arguments Store {H} _.
Arguments Size {H} _.
Arguments mHashers {H} _.

(** The seeds of the hasher bank, in bank order. *)
Definition seeds : list Z := [11; 31; 131; 989; 1919; 2007; 31313; 9281917].

(** Values stored under [any] by [Info]. *)
Inductive any : Set :=
| any_int32 (v : Z)
| any_int (v : Z).

Section Filter.
Context {H : Type} `{Hash128 H}.

(** [make([]bool, size)] panics on a negative length; the composite
    literal then lists the eight hashers. *)
Definition NewBloomFilter (size : Z) : result (BloomFilter H) :=
  if size <? 0 then Panic PanicMakesliceLen
  else Ok {| Store := replicate (Z.to_nat size) false;
             Size := size;
             mHashers := [ New128WithSeed 11;
                           New128WithSeed 31;
                           New128WithSeed 131;
                           New128WithSeed 989;
                           New128WithSeed 1919;
                           New128WithSeed 2007;
                           New128WithSeed 31313;
                           New128WithSeed 9281917 ] |}.

Definition Info (bf : BloomFilter H) : gmap string any :=
  {[ "size" := any_int32 (Size bf);
     "totalHashFuncs" := any_int (Z.of_nat (length (mHashers bf))) ]}.

(** *** The monad of methods on [*BloomFilter] *)

Definition M (A : Type) : Type := BloomFilter H -> result (A * BloomFilter H).

Definition ret {A} (a : A) : M A := fun bf => Ok (a, bf).

Definition bind {A B} (m : M A) (k : A -> M B) : M B :=
  fun bf => match m bf with
            | Ok (a, bf') => k a bf'
            | Panic p => Panic p
            end.

Definition throw {A} (p : panic) : M A := fun _ => Panic p.

Definition get_Size : M Z := fun bf => Ok (Size bf, bf).

Definition len_mHashers : M Z :=
  fun bf => Ok (Z.of_nat (length (mHashers bf)), bf).

(** [bf.mHashers[hashFn].f(...)]: index the bank (bounds checked), run
    the method on that hasher object and leave the object in its new
    state. *)
Definition call_hasher {A} (hashFn : Z) (f : H -> A * H) : M A :=
  fun bf =>
    if (hashFn <? 0) || (Z.of_nat (length (mHashers bf)) <=? hashFn)
    then Panic PanicIndexOutOfRange
    else match mHashers bf !! Z.to_nat hashFn with
         | None => Panic PanicIndexOutOfRange
         | Some h =>
             let '(a, h') := f h in
             Ok (a, {| Store := Store bf;
                       Size := Size bf;
                       mHashers := <[Z.to_nat hashFn := h']> (mHashers bf) |})
         end.

(** [bf.Store[index]] with [index : uint64]. *)
Definition Store_get (index : Z) : M bool :=
  fun bf =>
    if (index <? 0) || (Z.of_nat (length (Store bf)) <=? index)
    then Panic PanicIndexOutOfRange
    else match Store bf !! Z.to_nat index with
         | None => Panic PanicIndexOutOfRange
         | Some b => Ok (b, bf)
         end.

(** [bf.Store[index] = v]. *)
Definition Store_set (index : Z) (v : bool) : M unit :=
  fun bf =>
    if (index <? 0) || (Z.of_nat (length (Store bf)) <=? index)
    then Panic PanicIndexOutOfRange
    else Ok (tt, {| Store := <[Z.to_nat index := v]> (Store bf);
                    Size := Size bf;
                    mHashers := mHashers bf |}).

(** [a % b] on [uint64]. *)
Definition uint64_rem (a b : Z) : M Z :=
  if b =? 0 then throw PanicDivideByZero else ret (a mod b).

End Filter.

Declare Scope go_scope.
Delimit Scope go_scope with go.
Notation "'let*' x := m 'in' k" := (bind m (fun x => k))
  (at level 10, x name, m at level 100, k at level 200,
   format "'[v' 'let*'  x  :=  m  'in' '/' k ']'") : go_scope.
Local Open Scope go_scope.

Section Methods.
Context {H : Type} `{Hash128 H}.

Definition ComputeMurmurHash (key : string) (hashFn : Z) : M (H := H) Z :=
  let* _ := call_hasher hashFn (fun h => (tt, Write h (String.list_byte_of_string key))) in
  let* val := call_hasher hashFn (fun h => (fst (Sum128 h), h)) in
  let* _ := call_hasher hashFn (fun h => (tt, Reset h)) in
  ret val.

(** The loop of [Add] over the hash indices still to visit.  The bank
    never changes length, so the bound [len(bf.mHashers)] is read once. *)
Fixpoint Add_loop (key : string) (todo : list Z) : M (H := H) unit :=
  match todo with
  | [] => ret tt
  | i :: todo' =>
      let* val := ComputeMurmurHash key i in
      let* size := get_Size in
      let* index := uint64_rem val (uint64_of_int32 size) in
      let* _ := Store_set index true in
      Add_loop key todo'
  end.

Definition Add (key : string) : M (H := H) unit :=
  let* n := len_mHashers in
  Add_loop key (seqZ 0 n).

(** The loop of [Exists]; it returns from inside the loop at the first
    unset bit. *)
Fixpoint Exists_loop (key : string) (todo : list Z) : M (H := H) (Z * bool) :=
  match todo with
  | [] => ret (0, true)
  | i :: todo' =>
      let* val := ComputeMurmurHash key i in
      let* size := get_Size in
      let* index := uint64_rem val (uint64_of_int32 size) in
      let* b := Store_get index in
      if negb b then ret (index, false)
      else Exists_loop key todo'
  end.

Definition Exists (key : string) : M (H := H) (Z * bool) :=
  let* n := len_mHashers in
  Exists_loop key (seqZ 0 n).

End Methods.

(** ** Sequences of calls on one filter *)

Inductive call : Set :=
| CallAdd (key : string)
| CallExists (key : string)
| CallInfo
| CallComputeMurmurHash (key : string) (hashFn : Z).

(** [ComputeMurmurHash] indexes the bank with its argument; the callers in
    [bloom.go] pass [0 <= hashFn < len(bf.mHashers)]. *)
Definition call_in_range (c : call) : Prop :=
  match c with
  | CallComputeMurmurHash _ hashFn => 0 <= hashFn < 8
  | _ => True
  end.

Section Calls.
Context {H : Type} `{Hash128 H}.

(** One call, its return value dropped. *)
Definition exec (c : call) : M (H := H) unit :=
  match c with
  | CallAdd key => Add key
  | CallExists key => let* _ := Exists key in ret tt
  | CallInfo => fun bf => let _ := Info bf in Ok (tt, bf)
  | CallComputeMurmurHash key hashFn =>
      let* _ := ComputeMurmurHash key hashFn in ret tt
  end.

Fixpoint run (cs : list call) : M (H := H) unit :=
  match cs with
  | [] => ret tt
  | c :: cs' => let* _ := exec c in run cs'
  end.

(** The filters a program can hold: built by [NewBloomFilter size] and
    then driven through calls that all returned. *)
Definition reachable (size : Z) (bf : BloomFilter H) : Prop :=
  exists (bf0 : BloomFilter H) (cs : list call),
    NewBloomFilter size = Ok bf0 /\ run cs bf0 = Ok (tt, bf).

(** *** Full evaluation of the membership test

    The comparison point of the short-circuit claim, written after the
    words of the specification: compute all [K = 8] indices, read the
    eight bits and return their conjunction. *)
Fixpoint Exists_full_loop (key : string) (todo : list Z) : M (H := H) bool :=
  match todo with
  | [] => ret true
  | i :: todo' =>
      let* val := ComputeMurmurHash key i in
      let* size := get_Size in
      let* index := uint64_rem val (uint64_of_int32 size) in
      let* b := Store_get index in
      let* rest := Exists_full_loop key todo' in
      ret (b && rest)
  end.

Definition Exists_full (key : string) : M (H := H) bool :=
  Exists_full_loop key (seqZ 0 8).

End Calls.

(** ** The experiment driver *)

(** The loop of [main]:
    [for bfsize := 1000; bfsize <= BloomFilterSize; bfsize += 10000],
    as the list of the values of [bfsize] for which the body runs. *)
Equations? sweep (bfsize BloomFilterSize : Z) : list Z
  by wf (Z.to_nat (BloomFilterSize + 1 - bfsize)) lt :=
  sweep bfsize BloomFilterSize with decide (bfsize <= BloomFilterSize) := {
    | left _ => bfsize :: sweep (bfsize + 10000) BloomFilterSize
    | right _ => []
  }.
Proof. lia. Defined.

(** The [bloomSize] arguments of the [PerformTests] goroutines [main]
    starts, in the order it starts them. *)
Definition main_sweep : list Z := sweep 1000 100000.

Section PerformTests.
Context {H : Type} `{Hash128 H}.

(** The first statement of [PerformTests]:
    [bloom := NewBloomFilter(int32(bloomSize))]. *)
Definition PerformTests_bloom (bloomSize : Z) : result (BloomFilter H) :=
  NewBloomFilter (int32_of_int bloomSize).

End PerformTests.

Section Dataset.
(** [uuid.New().String()] draws a random identifier; [uuid_New k] stands
    for the string of the [k]-th identifier drawn by [generateDataset]. *)
Variable uuid_New : nat -> string.

Record generating : Type := mkGenerating {
  dataset : list string;
  trainDataset : gmap string bool;
  testDataset : gmap string bool;
  drawn : nat                      (* identifiers drawn so far *)
}.

(** Body of the first loop. *)
Definition train_step (g : generating) (i : Z) : generating :=
  let id := uuid_New (drawn g) in
  {| dataset := dataset g ++ [id];
     trainDataset := <[id := true]> (trainDataset g);
     testDataset := testDataset g;
     drawn := S (drawn g) |}.

(** Body of the second loop. *)
Definition test_step (g : generating) (i : Z) : generating :=
  let id := uuid_New (drawn g) in
  {| dataset := dataset g ++ [id];
     trainDataset := trainDataset g;
     testDataset := <[id := true]> (testDataset g);
     drawn := S (drawn g) |}.

(** [for i := lo; i < hi; i++] visits [seqZ lo (hi - lo)]; [n/2] on [int]
    truncates towards zero. *)
Definition generateDataset (n : Z)
  : list string * gmap string bool * gmap string bool :=
  let g0 := {| dataset := [""]; trainDataset := ∅; testDataset := ∅;
               drawn := 0%nat |} in
  let g1 := foldl train_step g0 (seqZ 0 (Z.quot n 2 - 0)) in
  let g2 := foldl test_step g1
              (seqZ (Z.quot n 2 + 1) (n - (Z.quot n 2 + 1))) in
  (dataset g2, trainDataset g2, testDataset g2).

End Dataset.

(** ** One trial, and the choice of the best record

    [float64] is kept abstract: [F] is the type of its values, with the
    conversion from [int], the product, the quotient and the comparison
    [<] that [PerformTests] and [main] use. *)

Class Float64 (F : Type) : Type := {
  float64_of_int : Z -> F;        (* float64(x) for x : int *)
  float64_mul : F -> F -> F;
  float64_div : F -> F -> F;
  float64_ltb : F -> F -> bool    (* x < y *)
}.

(** What the selection in [main] needs of [<]: it is a strict order (it
    need not be total: a NaN compares false with everything). *)
Class Float64Order (F : Type) `{Float64 F} : Prop := {
  float64_ltb_irrefl : forall x : F, float64_ltb x x = false;
  float64_ltb_trans :
    forall x y z : F,
      float64_ltb x y = true -> float64_ltb y z = true -> float64_ltb x z = true
}.

(** The record a trial sends on [testResultsOutChan]: the map with keys
    ["bloomInfo"], ["falsePositives"] and ["percentageFalsePositives"]. *)
Record testResult (F : Type) : Type := mkTestResult {
  bloomInfo : gmap string any;
  falsePositives : Z;
  percentageFalsePositives : F
}.
Arguments mkTestResult {F} _ _ _.
Arguments bloomInfo {F} _.
Arguments falsePositives {F} _.
Arguments percentageFalsePositives {F} _.

(** [_, ok := m[key]]. *)
Definition has_key (m : gmap string bool) (key : string) : bool :=
  match m !! key with
  | Some _ => true
  | None => false
  end.

Section Experiment.
Context {H : Type} `{Hash128 H} {F : Type} `{Float64 F}.

(** [for key := range trainDataset { bloom.Add(key) }].  Go leaves the
    order of a [range] over a map unspecified: [order] lists the keys in
    the order this run visits them. *)
Fixpoint PerformTests_insert (order : list string) : M (H := H) unit :=
  match order with
  | [] => ret tt
  | key :: order' =>
      let* _ := Add key in
      PerformTests_insert order'
  end.

(** [for _, key := range dataset { ... }], with the two counters
    [truePositives] and [falsePositives] as they stand.  Each grows by at
    most one per entry, so neither can leave the range of [int]. *)
Fixpoint PerformTests_query (trainDataset testDataset : gmap string bool)
         (todo : list string) (truePositives falsePositives : Z)
  : M (H := H) (Z * Z) :=
  match todo with
  | [] => ret (truePositives, falsePositives)
  | key :: todo' =>
      let* r := Exists key in
      let bloomExists := snd r in
      if bloomExists then
        let truePositives' :=
          if has_key trainDataset key then truePositives + 1 else truePositives in
        let falsePositives' :=
          if has_key testDataset key then falsePositives + 1 else falsePositives in
        PerformTests_query trainDataset testDataset todo' truePositives' falsePositives'
      else
        PerformTests_query trainDataset testDataset todo' truePositives falsePositives
  end.

(** [PerformTests] up to the point where both counters are final: the
    filter, the insertions, the queries. *)
Definition PerformTests_counts (bloomSize : Z) (dataset : list string)
           (trainDataset testDataset : gmap string bool) (order : list string)
  : result (Z * Z * BloomFilter H) :=
  match PerformTests_bloom bloomSize with
  | Panic p => Panic p
  | Ok bloom =>
      (let* _ := PerformTests_insert order in
       PerformTests_query trainDataset testDataset dataset 0 0) bloom
  end.

(** [PerformTests]: the value is the record sent on the channel. *)
Definition PerformTests (bloomSize : Z) (dataset : list string)
           (trainDataset testDataset : gmap string bool) (order : list string)
  : result (testResult F) :=
  match PerformTests_counts bloomSize dataset trainDataset testDataset order with
  | Panic p => Panic p
  | Ok (_, falsePositives, bloom) =>
      Ok {| bloomInfo := Info bloom;
            falsePositives := falsePositives;
            percentageFalsePositives :=
              float64_div
                (float64_mul (float64_of_int 100) (float64_of_int falsePositives))
                (float64_of_int (Z.of_nat (length dataset))) |}
  end.

(** The loop at the end of [main] that keeps the record with the least
    ["percentageFalsePositives"]; [None] is the nil map. *)
Definition bestBloomFilter_step (bestBloomFilter : option (testResult F))
           (candidate : testResult F) : option (testResult F) :=
  match bestBloomFilter with
  | None => Some candidate
  | Some best =>
      if float64_ltb (percentageFalsePositives candidate)
                     (percentageFalsePositives best)
      then Some candidate
      else Some best
  end.

Definition bestBloomFilter (testResults : list (testResult F))
  : option (testResult F) :=
  foldl bestBloomFilter_step None testResults.

(** The trials [main] starts on the dataset of [generateDataset(20_000)],
    one per size of the sweep; [orders bfsize] is the order in which the
    trial of that size ranges over the train map. *)
Definition main_trials (uuid_New : nat -> string) (orders : Z -> list string)
  : list (result (testResult F)) :=
  let '(dataset, trainDataset, testDataset) := generateDataset uuid_New 20000 in
  (fun bfsize =>
     PerformTests bfsize dataset trainDataset testDataset (orders bfsize))
    <$> main_sweep.

End Experiment.

(** ** A small hasher to run the filter on

    An instance of the interface used to evaluate the definitions on
    concrete inputs: the state is the seed and the bytes written since the
    last reset, the digest is a polynomial over those bytes.  It is not
    murmur3; nothing below depends on which instance is chosen. *)

Module PolyHash.

Record t : Type := mk { seed : Z; written : list Byte.byte }.

Definition poly (base : Z) (acc : Z) (p : list Byte.byte) : Z :=
  foldl (fun a b => (a * base + Z.of_N (Byte.to_N b)) mod uint64_modulus)
        (acc mod uint64_modulus) p.

#[global] Instance hash128 : Hash128 t := {
  New128WithSeed s := mk s [];
  Write h p := mk (seed h) (written h ++ p);
  Sum128 h := (poly 31 (seed h) (written h), poly 131 (seed h) (written h));
  Reset h := mk (seed h) []
}.

End PolyHash.

(** * Readings of the filter

    What the methods compute, as functions of the seed bank: used to state
    what a call returns.  [digest seed key] is the value
    [ComputeMurmurHash] gets from a hasher fresh from its constructor. *)

Section Readings.
Context {H : Type} `{Hash128 H}.

Definition digest (seed : Z) (key : string) : Z :=
  fst (Sum128 (Write (New128WithSeed seed) (String.list_byte_of_string key))).

Definition bit_index (size : Z) (key : string) (seed : Z) : Z :=
  digest seed key mod uint64_of_int32 size.

(** The eight indices of a key, in bank order. *)
Definition indices (size : Z) (key : string) : list Z :=
  bit_index size key <$> seeds.

Definition set_bits (idxs : list Z) (store : list bool) : list bool :=
  foldl (fun st idx => <[Z.to_nat idx := true]> st) store idxs.

(** The bit at an index of the store (unset outside it). *)
Definition bit (store : list bool) (idx : Z) : bool :=
  match store !! Z.to_nat idx with
  | Some b => b
  | None => false
  end.

(** First index in the list whose bit is not set. *)
Fixpoint first_unset (store : list bool) (idxs : list Z) : option Z :=
  match idxs with
  | [] => None
  | idx :: idxs' =>
      if bit store idx then first_unset store idxs' else Some idx
  end.

(** The shape every filter built by [NewBloomFilter size] keeps. *)
Definition inv (size : Z) (bf : BloomFilter H) : Prop :=
  Size bf = size /\
  length (Store bf) = Z.to_nat size /\
  mHashers bf = New128WithSeed <$> seeds.

(** Every set bit of [s1] is set in [s2], and the lengths agree. *)
Definition bits_le (s1 s2 : list bool) : Prop :=
  length s1 = length s2 /\
  forall i : nat, s1 !! i = Some true -> s2 !! i = Some true.


(** Pairs a loop counter with the seed of the hasher it selects. *)
Definition selects (i seed : Z) : Prop :=
  0 <= i /\ seeds !! Z.to_nat i = Some seed.

(** What one call does to a well-formed filter of the given size. *)
Definition exec_spec (size : Z) (c : call) (bf : BloomFilter H)
  : result (unit * BloomFilter H) :=
  match c with
  | CallAdd key =>
      if size =? 0 then Panic PanicDivideByZero
      else Ok (tt, {| Store := set_bits (indices size key) (Store bf);
                      Size := Size bf; mHashers := mHashers bf |})
  | CallExists key =>
      if size =? 0 then Panic PanicDivideByZero else Ok (tt, bf)
  | CallInfo => Ok (tt, bf)
  | CallComputeMurmurHash key i =>
      if (0 <=? i) && (i <? 8) then Ok (tt, bf)
      else Panic PanicIndexOutOfRange
  end.

(** All indices of the key have their bit set. *)
Definition covered (size : Z) (key : string) (bf : BloomFilter H) : Prop :=
  forallb (bit (Store bf)) (indices size key) = true.

End Readings.

(** The identifiers drawn by [len] successive draws starting at draw
    [from]. *)
Definition draws (uuid_New : nat -> string) (from len : nat) : list string :=
  uuid_New <$> seq from len.

(** Filters over the small hasher: the ones [NewBloomFilter 10] and
    [NewBloomFilter 3] return, and the one the former becomes after
    [Add "a"]. *)
Definition empty_filter10 : BloomFilter PolyHash.t :=
  {| Store := replicate 10 false; Size := 10;
     mHashers := New128WithSeed <$> seeds |}.

Definition empty_filter3 : BloomFilter PolyHash.t :=
  {| Store := replicate 3 false; Size := 3;
     mHashers := New128WithSeed <$> seeds |}.

Definition sample_filter : BloomFilter PolyHash.t :=
  {| Store := [true; false; false; false; true; false; true; false; true; false];
     Size := 10;
     mHashers := New128WithSeed <$> seeds |}.

(** An identifier source for [generateDataset] whose strings are non-empty
    and pairwise distinct: the letter u followed by the draw number. *)
Definition numbered_uuid (k : nat) : string := "u" +:+ pretty k.

(** ** Further readings, for the properties beyond the claims *)

Section MoreReadings.
Context {H : Type} `{Hash128 H}.

(** [idx] is one of the bit indices the loops of [Add] and [Exists]
    compute for [key] on [bf]: the digest of some hasher of the bank,
    reduced modulo the size. *)
Definition hashes_to (bf : BloomFilter H) (key : string) (idx : Z) : Prop :=
  exists i d : Z,
    0 <= i < 8 /\
    ComputeMurmurHash key i bf = Ok (d, bf) /\
    idx = d mod uint64_of_int32 (Size bf).

(** The keys a sequence of calls adds, in call order. *)
Definition added (cs : list call) : list string :=
  omap (fun c => match c with CallAdd key => Some key | _ => None end) cs.

(** The indices those keys hash to, in call order. *)
Definition added_indices (size : Z) (cs : list call) : list Z :=
  mjoin (indices size <$> added cs).

(** Whether all the bits of the indices of [key] are set. *)
Definition tests_positive (size : Z) (bf : BloomFilter H) (key : string) : bool :=
  forallb (bit (Store bf)) (indices size key).

End MoreReadings.

(** Whether some index of the list falls on position [n]. *)
Definition hit (idxs : list Z) (n : nat) : bool :=
  existsb (fun idx => Nat.eqb (Z.to_nat idx) n) idxs.

(** Number of set bits. *)
Definition popcount (store : list bool) : nat :=
  length (filter (fun b => b = true) store).

(** Number of entries of a dataset that are keys of a map. *)
Definition count_keys (m : gmap string bool) (dataset : list string) : Z :=
  Z.of_nat (length (List.filter (has_key m) dataset)).

(** A small dataset with its two maps, for running a trial. *)
Definition sample_dataset : list string := [""; "a"; "b"].
Definition sample_train : gmap string bool := {[ "a" := true ]}.
Definition sample_test : gmap string bool := {[ "b" := true ]}.

(** A stand-in for [float64] to run the trials on: the rationals, with
    [x < y] decided exactly.  It is not IEEE arithmetic. *)
#[global] Instance Q_float64 : Float64 QArith_base.Q := {
  float64_of_int := QArith_base.inject_Z;
  float64_mul := QArith_base.Qmult;
  float64_div := QArith_base.Qdiv;
  float64_ltb x y := negb (QArith_base.Qle_bool y x)
}.

(** Two records as trials send them, with percentages 1/2 and 1/4. *)
Definition sample_results : list (testResult QArith_base.Q) :=
  [ {| bloomInfo := {[ "size" := any_int32 10; "totalHashFuncs" := any_int 8 ]};
       falsePositives := 2;
       percentageFalsePositives := QArith_base.Qmake 1 2 |};
    {| bloomInfo := {[ "size" := any_int32 20; "totalHashFuncs" := any_int 8 ]};
       falsePositives := 1;
       percentageFalsePositives := QArith_base.Qmake 1 4 |} ].

(** The train map of the dataset generated from numbered identifiers, and
    an order in which a trial may range over it. *)
Definition numbered_train (n : Z) : gmap string bool :=
  snd (fst (generateDataset numbered_uuid n)).

Definition numbered_order (n : Z) : list string :=
  elements (dom (numbered_train n)).

(** * Properties *)

(** ** The hasher bank *)

Section Hasher.
Context {H : Type} `{Hash128Laws H}.

Lemma call_hasher_ok {A} (hashFn : Z) (f : H -> A * H) (bf : BloomFilter H) h :
  0 <= hashFn ->
  mHashers bf !! Z.to_nat hashFn = Some h ->
  call_hasher hashFn f bf =
    Ok (fst (f h), {| Store := Store bf; Size := Size bf;
                      mHashers := <[Z.to_nat hashFn := snd (f h)]> (mHashers bf) |}).
Proof.
  intros Hi Hl. unfold call_hasher.
  pose proof (lookup_lt_Some _ _ _ Hl) as Hlt.
  replace (hashFn <? 0) with false by (symmetry; apply Z.ltb_ge; lia).
  replace (Z.of_nat (length (mHashers bf)) <=? hashFn) with false
    by (symmetry; apply Z.leb_gt; lia).
  simpl. rewrite Hl. destruct (f h); reflexivity.
Qed.

Lemma call_hasher_out_of_range {A} (hashFn : Z) (f : H -> A * H) (bf : BloomFilter H) :
  hashFn < 0 \/ Z.of_nat (length (mHashers bf)) <= hashFn ->
  call_hasher hashFn f bf = Panic PanicIndexOutOfRange.
Proof.
  intros Hr. unfold call_hasher.
  destruct (Z.ltb_spec hashFn 0); [reflexivity|].
  destruct (Z.leb_spec (Z.of_nat (length (mHashers bf))) hashFn); [reflexivity|lia].
Qed.

(** On a bank in its constructed state the digest is that of a fresh
    hasher, and the three calls leave the bank as they found it. *)
Lemma ComputeMurmurHash_fresh (key : string) (hashFn seed : Z) (bf : BloomFilter H) :
  mHashers bf = New128WithSeed <$> seeds ->
  0 <= hashFn ->
  seeds !! Z.to_nat hashFn = Some seed ->
  ComputeMurmurHash key hashFn bf = Ok (digest seed key, bf).
Proof.
  intros Hb Hi Hs.
  assert (Hl : mHashers bf !! Z.to_nat hashFn = Some (New128WithSeed seed)).
  { rewrite Hb, list_lookup_fmap, Hs. reflexivity. }
  pose proof (lookup_lt_Some _ _ _ Hl) as Hlt.
  unfold ComputeMurmurHash, bind.
  rewrite (call_hasher_ok _ _ _ _ Hi Hl). cbn [fst snd].
  erewrite call_hasher_ok; [|exact Hi|]; cycle 1.
  { cbn [mHashers]. apply list_lookup_insert_eq. exact Hlt. }
  cbn [fst snd mHashers Store Size].
  erewrite call_hasher_ok; [|exact Hi|]; cycle 1.
  { cbn [mHashers]. apply list_lookup_insert_eq.
    rewrite !length_insert. exact Hlt. }
  cbn [fst snd mHashers Store Size]. unfold ret, digest.
  rewrite !list_insert_insert_eq, Reset_Write_New.
  rewrite (list_insert_id _ _ _ Hl). destruct bf; reflexivity.
Qed.

Lemma ComputeMurmurHash_out_of_range (key : string) (hashFn : Z) (bf : BloomFilter H) :
  hashFn < 0 \/ Z.of_nat (length (mHashers bf)) <= hashFn ->
  ComputeMurmurHash key hashFn bf = Panic PanicIndexOutOfRange.
Proof.
  intros Hr. unfold ComputeMurmurHash, bind.
  rewrite call_hasher_out_of_range by exact Hr. reflexivity.
Qed.

Lemma digest_uint64 (seed : Z) (key : string) :
  0 <= digest seed key < uint64_modulus.
Proof. unfold digest. apply Sum128_uint64. Qed.

End Hasher.

(** ** Bit arrays *)

Section Bits.

Lemma length_set_bits (idxs : list Z) (store : list bool) :
  length (set_bits idxs store) = length store.
Proof.
  revert store. induction idxs as [|idx idxs IH]; intros store; simpl.
  - reflexivity.
  - unfold set_bits in *. simpl. rewrite IH, length_insert. reflexivity.
Qed.

Lemma set_bits_cons (idx : Z) (idxs : list Z) (store : list bool) :
  set_bits (idx :: idxs) store = set_bits idxs (<[Z.to_nat idx := true]> store).
Proof. reflexivity. Qed.

(** One write changes a bit from unset to set or changes nothing. *)
Lemma insert_true_lookup (store : list bool) (n i : nat) :
  <[n := true]> store !! i = store !! i \/
  (store !! i = Some false /\ <[n := true]> store !! i = Some true).
Proof.
  destruct (decide (n = i)) as [->|Hne].
  - destruct (store !! i) as [b|] eqn:Hb.
    + pose proof (lookup_lt_Some _ _ _ Hb) as Hlt.
      rewrite list_lookup_insert_eq by exact Hlt.
      destruct b; [left|right]; auto.
    + left. rewrite list_insert_ge; [exact Hb|].
      apply lookup_ge_None. exact Hb.
  - left. apply list_lookup_insert_ne. exact Hne.
Qed.

Lemma set_bits_lookup (idxs : list Z) (store : list bool) (i : nat) :
  set_bits idxs store !! i = store !! i \/
  (store !! i = Some false /\ set_bits idxs store !! i = Some true).
Proof.
  revert store. induction idxs as [|idx idxs IH]; intros store.
  - left. reflexivity.
  - rewrite set_bits_cons.
    destruct (IH (<[Z.to_nat idx := true]> store)) as [E|[E1 E2]];
      destruct (insert_true_lookup store (Z.to_nat idx) i) as [F|[F1 F2]].
    + left. congruence.
    + right. split; congruence.
    + right. split; congruence.
    + congruence.
Qed.

Lemma set_bits_le (idxs : list Z) (store : list bool) :
  bits_le store (set_bits idxs store).
Proof.
  split.
  - symmetry. apply length_set_bits.
  - intros i Hi. destruct (set_bits_lookup idxs store i) as [E|[E _]]; congruence.
Qed.

Lemma set_bits_elem (idxs : list Z) (store : list bool) (idx : Z) :
  idx ∈ idxs ->
  (Z.to_nat idx < length store)%nat ->
  bit (set_bits idxs store) idx = true.
Proof.
  revert store. induction idxs as [|j idxs IH]; intros store Hin Hlt.
  - inversion Hin.
  - rewrite set_bits_cons. apply elem_of_cons in Hin as [->|Hin].
    + assert (Hset : <[Z.to_nat j := true]> store !! Z.to_nat j = Some true)
        by (apply list_lookup_insert_eq; exact Hlt).
      destruct (set_bits_le idxs (<[Z.to_nat j := true]> store)) as [_ Hle].
      unfold bit. rewrite (Hle _ Hset). reflexivity.
    + apply IH; [exact Hin|]. rewrite length_insert. exact Hlt.
Qed.

Lemma bits_le_refl (s : list bool) : bits_le s s.
Proof. split; auto. Qed.

Lemma bits_le_trans (s1 s2 s3 : list bool) :
  bits_le s1 s2 -> bits_le s2 s3 -> bits_le s1 s3.
Proof. intros [L1 M1] [L2 M2]. split; [congruence|auto]. Qed.

Lemma bits_le_bit (s1 s2 : list bool) (idx : Z) :
  bits_le s1 s2 -> bit s1 idx = true -> bit s2 idx = true.
Proof.
  intros [_ Hle]. unfold bit.
  destruct (s1 !! Z.to_nat idx) as [[|]|] eqn:E; try discriminate.
  intros _. rewrite (Hle _ E). reflexivity.
Qed.

Lemma first_unset_None (store : list bool) (idxs : list Z) :
  first_unset store idxs = None <-> forallb (bit store) idxs = true.
Proof.
  induction idxs as [|idx idxs IH]; simpl.
  - tauto.
  - destruct (bit store idx); simpl; [exact IH|]. split; discriminate.
Qed.

(** The index [first_unset] returns is the first with an unset bit. *)
Lemma first_unset_Some (store : list bool) (idxs : list Z) (idx : Z) :
  first_unset store idxs = Some idx ->
  exists n : nat,
    idxs !! n = Some idx /\ bit store idx = false /\
    forall (m : nat) (j : Z), (m < n)%nat -> idxs !! m = Some j -> bit store j = true.
Proof.
  induction idxs as [|j idxs IH]; simpl; [discriminate|].
  destruct (bit store j) eqn:Hj.
  - intros Hf. destruct (IH Hf) as (n & Hn & Hb & Hpre).
    exists (S n). split; [exact Hn|]. split; [exact Hb|].
    intros [|m] j' Hm Hl; simpl in Hl.
    + congruence.
    + apply (Hpre m); [lia|exact Hl].
  - intros [= ->]. exists 0%nat. split; [reflexivity|]. split; [exact Hj|].
    intros m j' Hm. lia.
Qed.

End Bits.

(** ** The methods on a well-formed filter *)

Lemma uint64_of_int32_nonneg (size : Z) :
  0 <= size <= int32_max -> uint64_of_int32 size = size.
Proof.
  unfold int32_max, uint64_of_int32, uint64_modulus. intros Hs.
  apply Z.mod_small. lia.
Qed.


Lemma selects_bank : Forall2 selects (seqZ 0 8) seeds.
Proof.
  change (seqZ 0 8) with [0; 1; 2; 3; 4; 5; 6; 7]. unfold seeds, selects.
  repeat (constructor; [split; [lia|reflexivity]|]). constructor.
Qed.

Section MethodFacts.
Context {H : Type} `{Hash128Laws H}.

Lemma bit_index_range (size : Z) (key : string) (seed : Z) :
  1 <= size <= int32_max -> 0 <= bit_index size key seed < size.
Proof.
  intros Hs. unfold bit_index.
  rewrite uint64_of_int32_nonneg by lia. apply Z.mod_pos_bound. lia.
Qed.

Lemma inv_New (size : Z) :
  0 <= size ->
  exists bf0 : BloomFilter H,
    NewBloomFilter size = Ok bf0 /\ inv size bf0 /\
    Store bf0 = replicate (Z.to_nat size) false.
Proof.
  intros Hs. unfold NewBloomFilter.
  destruct (Z.ltb_spec size 0) as [|_]; [lia|].
  eexists. split; [reflexivity|]. split; [|reflexivity].
  unfold inv. cbn [Size Store mHashers].
  rewrite length_replicate. auto.
Qed.

Lemma Store_set_ok (idx : Z) (bf : BloomFilter H) :
  0 <= idx < Z.of_nat (length (Store bf)) ->
  Store_set idx true bf =
    Ok (tt, {| Store := <[Z.to_nat idx := true]> (Store bf);
               Size := Size bf; mHashers := mHashers bf |}).
Proof.
  intros Hr. unfold Store_set.
  destruct (Z.ltb_spec idx 0); [lia|].
  destruct (Z.leb_spec (Z.of_nat (length (Store bf))) idx); [lia|].
  reflexivity.
Qed.

Lemma Store_get_ok (idx : Z) (bf : BloomFilter H) :
  0 <= idx < Z.of_nat (length (Store bf)) ->
  Store_get idx bf = Ok (bit (Store bf) idx, bf).
Proof.
  intros Hr. unfold Store_get, bit.
  destruct (Z.ltb_spec idx 0); [lia|].
  destruct (Z.leb_spec (Z.of_nat (length (Store bf))) idx); [lia|].
  simpl. destruct (Store bf !! Z.to_nat idx) eqn:E; [reflexivity|].
  apply lookup_ge_None in E. lia.
Qed.

Lemma uint64_rem_ok (a b : Z) (bf : BloomFilter H) :
  b <> 0 -> uint64_rem a b bf = Ok (a mod b, bf).
Proof.
  intros Hb. unfold uint64_rem.
  destruct (Z.eqb_spec b 0); [contradiction|reflexivity].
Qed.

(** The first four statements of either loop body: digest, size,
    reduction modulo the size. *)
Lemma index_step {A} (size : Z) (key : string) (i seed : Z)
      (bf : BloomFilter H) (k : Z -> M (H := H) A) :
  1 <= size <= int32_max -> inv size bf -> selects i seed ->
  (let* val := ComputeMurmurHash key i in
   let* sz := get_Size in
   let* index := uint64_rem val (uint64_of_int32 sz) in
   k index) bf = k (bit_index size key seed) bf.
Proof.
  intros Hs (HS & HL & HB) [Hi Hseed]. unfold bind at 1.
  rewrite (ComputeMurmurHash_fresh key i seed bf HB Hi Hseed).
  unfold bind at 1. unfold get_Size. unfold bind at 1.
  rewrite uint64_rem_ok; [rewrite HS; reflexivity|].
  rewrite HS, uint64_of_int32_nonneg by lia. lia.
Qed.

Lemma Add_loop_inv (size : Z) (key : string) (todo ss : list Z) (bf : BloomFilter H) :
  1 <= size <= int32_max -> inv size bf -> Forall2 selects todo ss ->
  Add_loop key todo bf =
    Ok (tt, {| Store := set_bits (bit_index size key <$> ss) (Store bf);
               Size := Size bf; mHashers := mHashers bf |}).
Proof.
  intros Hs Hinv Hsel. revert bf Hinv.
  induction Hsel as [|i seed todo ss Hi Hsel IH]; intros bf Hinv.
  - simpl. unfold ret. destruct bf; reflexivity.
  - cbn [Add_loop]. rewrite (index_step size key i seed) by assumption.
    pose proof (bit_index_range size key seed Hs) as Hr.
    destruct Hinv as (HS & HL & HB).
    unfold bind. rewrite Store_set_ok by lia.
    rewrite IH.
    + cbn [Store Size mHashers fmap list_fmap]. rewrite set_bits_cons. reflexivity.
    + unfold inv. cbn [Store Size mHashers]. rewrite length_insert. auto.
Qed.

Lemma len_bank (size : Z) (bf : BloomFilter H) :
  inv size bf -> Z.of_nat (length (mHashers bf)) = 8.
Proof. intros (_ & _ & ->). reflexivity. Qed.

Lemma Add_inv (size : Z) (key : string) (bf : BloomFilter H) :
  1 <= size <= int32_max -> inv size bf ->
  Add key bf =
    Ok (tt, {| Store := set_bits (indices size key) (Store bf);
               Size := Size bf; mHashers := mHashers bf |}).
Proof.
  intros Hs Hinv. unfold Add, bind, len_mHashers.
  rewrite (len_bank size bf Hinv).
  apply Add_loop_inv; [exact Hs|exact Hinv|exact selects_bank].
Qed.

Lemma Exists_loop_inv (size : Z) (key : string) (todo ss : list Z) (bf : BloomFilter H) :
  1 <= size <= int32_max -> inv size bf -> Forall2 selects todo ss ->
  Exists_loop key todo bf =
    Ok (match first_unset (Store bf) (bit_index size key <$> ss) with
        | Some idx => (idx, false)
        | None => (0, true)
        end, bf).
Proof.
  intros Hs Hinv Hsel.
  induction Hsel as [|i seed todo ss Hi Hsel IH].
  - reflexivity.
  - cbn [Exists_loop]. rewrite (index_step size key i seed) by assumption.
    pose proof (bit_index_range size key seed Hs) as Hr.
    pose proof Hinv as (HS & HL & HB).
    unfold bind. rewrite Store_get_ok by lia.
    cbn [fmap list_fmap first_unset].
    destruct (bit (Store bf) (bit_index size key seed)); simpl.
    + exact IH.
    + reflexivity.
Qed.

Lemma Exists_inv (size : Z) (key : string) (bf : BloomFilter H) :
  1 <= size <= int32_max -> inv size bf ->
  Exists key bf =
    Ok (match first_unset (Store bf) (indices size key) with
        | Some idx => (idx, false)
        | None => (0, true)
        end, bf).
Proof.
  intros Hs Hinv. unfold Exists, bind, len_mHashers.
  rewrite (len_bank size bf Hinv).
  apply Exists_loop_inv; [exact Hs|exact Hinv|exact selects_bank].
Qed.

End MethodFacts.

(** ** Calls and runs *)

Section RunFacts.
Context {H : Type} `{Hash128Laws H}.

Lemma seed_of_index (i : Z) :
  0 <= i < 8 -> exists seed : Z, selects i seed.
Proof.
  intros Hi. destruct (lookup_lt_is_Some_2 seeds (Z.to_nat i)) as [s Hs].
  - simpl. lia.
  - exists s. split; [lia|exact Hs].
Qed.

Lemma ComputeMurmurHash_inv (size : Z) (key : string) (i : Z) (bf : BloomFilter H) :
  inv size bf -> 0 <= i < 8 ->
  exists seed : Z,
    selects i seed /\ ComputeMurmurHash key i bf = Ok (digest seed key, bf).
Proof.
  intros (_ & _ & HB) Hi. destruct (seed_of_index i Hi) as [seed [Hi0 Hs]].
  exists seed. split; [split; assumption|].
  apply ComputeMurmurHash_fresh; assumption.
Qed.

(** With [Size = 0] the reduction of the first digest divides by zero. *)
Lemma zero_step {A} (key : string) (bf : BloomFilter H) (k : Z -> M (H := H) A) :
  inv 0 bf ->
  (let* val := ComputeMurmurHash key 0 in
   let* sz := get_Size in
   let* index := uint64_rem val (uint64_of_int32 sz) in
   k index) bf = Panic PanicDivideByZero.
Proof.
  intros (HS & HL & HB). unfold bind at 1.
  rewrite (ComputeMurmurHash_fresh key 0 11 bf HB); [|lia|reflexivity].
  unfold bind at 1. unfold get_Size. unfold bind at 1.
  rewrite HS. reflexivity.
Qed.

Lemma Add_zero (key : string) (bf : BloomFilter H) :
  inv 0 bf -> Add key bf = Panic PanicDivideByZero.
Proof.
  intros Hinv. unfold Add. unfold bind at 1. unfold len_mHashers.
  rewrite (len_bank 0 bf Hinv). change (seqZ 0 8) with (0 :: seqZ 1 7).
  cbn [Add_loop]. apply zero_step. exact Hinv.
Qed.

Lemma Exists_zero (key : string) (bf : BloomFilter H) :
  inv 0 bf -> Exists key bf = Panic PanicDivideByZero.
Proof.
  intros Hinv. unfold Exists. unfold bind at 1. unfold len_mHashers.
  rewrite (len_bank 0 bf Hinv). change (seqZ 0 8) with (0 :: seqZ 1 7).
  cbn [Exists_loop]. apply zero_step. exact Hinv.
Qed.


Lemma exec_inv (size : Z) (c : call) (bf : BloomFilter H) :
  0 <= size <= int32_max -> inv size bf ->
  exec c bf = exec_spec size c bf.
Proof.
  intros Hs Hinv. destruct c as [key|key| |key i]; simpl.
  - destruct (Z.eqb_spec size 0) as [->|Hne].
    + apply Add_zero. exact Hinv.
    + apply Add_inv; [lia|exact Hinv].
  - unfold bind. destruct (Z.eqb_spec size 0) as [->|Hne].
    + rewrite Exists_zero by exact Hinv. reflexivity.
    + rewrite (Exists_inv size) by (try lia; exact Hinv). reflexivity.
  - reflexivity.
  - unfold bind.
    destruct (Z.leb_spec 0 i); destruct (Z.ltb_spec i 8); simpl.
    + destruct (ComputeMurmurHash_inv size key i bf Hinv) as (s & _ & ->);
        [lia|reflexivity].
    + rewrite ComputeMurmurHash_out_of_range; [reflexivity|].
      right. rewrite (len_bank size bf Hinv). lia.
    + rewrite ComputeMurmurHash_out_of_range; [reflexivity|]. left. lia.
    + rewrite ComputeMurmurHash_out_of_range; [reflexivity|]. left. lia.
Qed.


Lemma covered_after_set (size : Z) (key : string) (store : list bool) (bf : BloomFilter H) :
  1 <= size <= int32_max ->
  length store = Z.to_nat size ->
  Store bf = set_bits (indices size key) store ->
  covered size key bf.
Proof.
  intros Hs HL HSt. unfold covered. apply forallb_forall. intros idx Hin.
  rewrite HSt. apply set_bits_elem.
  - apply list_elem_of_In. exact Hin.
  - apply list_elem_of_In, list_elem_of_fmap in Hin as (seed & -> & _).
    pose proof (bit_index_range size key seed Hs). lia.
Qed.

Lemma covered_mono (size : Z) (key : string) (bf bf' : BloomFilter H) :
  bits_le (Store bf) (Store bf') -> covered size key bf -> covered size key bf'.
Proof.
  unfold covered. intros Hle Hc. apply forallb_forall. intros idx Hin.
  apply (bits_le_bit _ _ _ Hle). revert idx Hin. apply forallb_forall. exact Hc.
Qed.

(** Closes the cases of a call that hands the filter back as it got it. *)
Ltac unchanged :=
  split; [assumption|];
  split; [apply bits_le_refl|];
  split; [intros ? [=] | intros _; reflexivity].

(** A call that returns keeps the shape of the filter and its set bits. *)
Lemma exec_Ok (size : Z) (c : call) (bf bf' : BloomFilter H) :
  0 <= size <= int32_max -> inv size bf ->
  exec c bf = Ok (tt, bf') ->
  inv size bf' /\ bits_le (Store bf) (Store bf') /\
  (forall key, c = CallAdd key -> covered size key bf') /\
  ((forall key, c <> CallAdd key) -> bf' = bf).
Proof.
  intros Hs Hinv. rewrite (exec_inv size c bf Hs Hinv).
  pose proof Hinv as (HS & HL & HB).
  destruct c as [key|key| |key i]; cbn [exec_spec].
  - destruct (Z.eqb_spec size 0) as [->|Hne]; [discriminate|].
    intros Heq.
    assert (Hbf' : bf' = {| Store := set_bits (indices size key) (Store bf);
                            Size := Size bf; mHashers := mHashers bf |})
      by congruence.
    clear Heq. subst bf'. split; [|split; [|split]].
    + unfold inv. cbn [Store Size mHashers]. rewrite length_set_bits. auto.
    + apply set_bits_le.
    + intros key' [= <-].
      apply (covered_after_set size key (Store bf)); [lia|exact HL|reflexivity].
    + intros Hne'. destruct (Hne' key). reflexivity.
  - destruct (size =? 0); [discriminate|]. intros [= <-]. unchanged.
  - intros [= <-]. unchanged.
  - destruct ((0 <=? i) && (i <? 8)); [|discriminate]. intros [= <-]. unchanged.
Qed.

Lemma exec_total (size : Z) (c : call) (bf : BloomFilter H) :
  1 <= size <= int32_max -> inv size bf -> call_in_range c ->
  exists bf' : BloomFilter H, exec c bf = Ok (tt, bf').
Proof.
  intros Hs Hinv Hc. rewrite (exec_inv size c bf) by (try lia; exact Hinv).
  destruct c as [key|key| |key i]; simpl in *.
  - destruct (Z.eqb_spec size 0); [lia|]. eauto.
  - destruct (Z.eqb_spec size 0); [lia|]. eauto.
  - eauto.
  - destruct (Z.leb_spec 0 i); [|lia]. destruct (Z.ltb_spec i 8); [|lia].
    simpl. eauto.
Qed.

Lemma run_cons (c : call) (cs : list call) (bf : BloomFilter H) :
  run (c :: cs) bf =
    match exec c bf with
    | Ok (_, bf') => run cs bf'
    | Panic p => Panic p
    end.
Proof. reflexivity. Qed.

Lemma run_app (cs1 cs2 : list call) (bf : BloomFilter H) :
  run (cs1 ++ cs2) bf =
    match run cs1 bf with
    | Ok (_, bf') => run cs2 bf'
    | Panic p => Panic p
    end.
Proof.
  revert bf. induction cs1 as [|c cs1 IH]; intros bf.
  - reflexivity.
  - rewrite <- app_comm_cons, !run_cons.
    destruct (exec c bf) as [[[] bf']|p]; [apply IH|reflexivity].
Qed.

Lemma run_Ok (size : Z) (cs : list call) (bf bf' : BloomFilter H) :
  0 <= size <= int32_max -> inv size bf ->
  run cs bf = Ok (tt, bf') ->
  inv size bf' /\ bits_le (Store bf) (Store bf') /\
  (forall key, CallAdd key ∈ cs -> covered size key bf') /\
  ((forall key, CallAdd key ∉ cs) -> bf' = bf).
Proof.
  intros Hs. revert bf. induction cs as [|c cs IH]; intros bf Hinv.
  - intros [= <-]. split; [exact Hinv|]. split; [apply bits_le_refl|].
    split; [|reflexivity]. intros key Hin. inversion Hin.
  - rewrite run_cons. destruct (exec c bf) as [[[] bf1]|p] eqn:Hc; [|discriminate].
    intros Hrun.
    destruct (exec_Ok size c bf bf1 Hs Hinv Hc) as (Hinv1 & Hle1 & Hcov1 & Hsame1).
    destruct (IH bf1 Hinv1 Hrun) as (Hinv' & Hle' & Hcov' & Hsame').
    split; [exact Hinv'|]. split; [exact (bits_le_trans _ _ _ Hle1 Hle')|]. split.
    + intros key Hin. apply elem_of_cons in Hin as [<-|Hin].
      * apply (covered_mono size key bf1); [exact Hle'|]. apply Hcov1. reflexivity.
      * apply Hcov'. exact Hin.
    + intros Hno. rewrite Hsame'.
      * apply Hsame1. intros key ->. apply (Hno key). left.
      * intros key Hin. apply (Hno key). right. exact Hin.
Qed.

Lemma run_total (size : Z) (cs : list call) (bf : BloomFilter H) :
  1 <= size <= int32_max -> inv size bf -> Forall call_in_range cs ->
  exists bf' : BloomFilter H, run cs bf = Ok (tt, bf').
Proof.
  intros Hs Hinv Hcs. revert bf Hinv.
  induction Hcs as [|c cs Hc Hcs IH]; intros bf Hinv.
  - exists bf. reflexivity.
  - rewrite run_cons.
    destruct (exec_total size c bf Hs Hinv Hc) as [bf1 Hbf1]. rewrite Hbf1.
    apply IH. apply (exec_Ok size c bf bf1); [lia|exact Hinv|exact Hbf1].
Qed.

Lemma reachable_inv (size : Z) (bf : BloomFilter H) :
  0 <= size <= int32_max -> reachable size bf -> inv size bf.
Proof.
  intros Hs (bf0 & cs & Hnew & Hrun).
  destruct (inv_New (H := H) size) as (bf0' & Hnew' & Hinv0 & _); [lia|].
  rewrite Hnew in Hnew'. injection Hnew' as <-.
  apply (run_Ok size cs bf0 bf Hs Hinv0 Hrun).
Qed.

End RunFacts.

(** ** The small hasher obeys the contract *)

Lemma PolyHash_poly_range (base acc : Z) (p : list Byte.byte) :
  0 <= PolyHash.poly base acc p < uint64_modulus.
Proof.
  unfold PolyHash.poly.
  assert (Hacc : 0 <= acc mod uint64_modulus < uint64_modulus)
    by (apply Z.mod_pos_bound; reflexivity).
  revert Hacc. generalize (acc mod uint64_modulus) as a.
  induction p as [|b p IH]; intros a Ha; simpl.
  - exact Ha.
  - apply IH. apply Z.mod_pos_bound. reflexivity.
Qed.

#[global] Instance PolyHash_laws : Hash128Laws PolyHash.t.
Proof.
  split.
  - reflexivity.
  - intros h. simpl. split; apply PolyHash_poly_range.
Qed.


(** ** The definitions at work *)

Example sample_filter_built :
  NewBloomFilter 10 = Ok empty_filter10 /\
  Add "a" empty_filter10 = Ok (tt, sample_filter).
Proof. split; reflexivity. Qed.

Example sample_Exists_added :
  Exists "a" sample_filter = Ok ((0, true), sample_filter).
Proof. reflexivity. Qed.

Example sample_Exists_absent :
  Exists "b" sample_filter = Ok ((9, false), sample_filter).
Proof. reflexivity. Qed.

Example sample_Exists_full_absent :
  Exists_full "b" sample_filter = Ok (false, sample_filter).
Proof. reflexivity. Qed.

Example size_zero_Add :
  NewBloomFilter (H := PolyHash.t) 0 =
    Ok {| Store := []; Size := 0; mHashers := New128WithSeed <$> seeds |} /\
  Add (H := PolyHash.t) "a"
      {| Store := []; Size := 0; mHashers := New128WithSeed <$> seeds |} =
    Panic PanicDivideByZero.
Proof. split; reflexivity. Qed.

Example hash_index_out_of_range :
  ComputeMurmurHash "a" 8 sample_filter = Panic PanicIndexOutOfRange.
Proof. reflexivity. Qed.

Example generateDataset_7 :
  fst (fst (generateDataset numbered_uuid 7)) =
    [""; "u0"; "u1"; "u2"; "u3"; "u4"; "u5"].
Proof. vm_compute. reflexivity. Qed.

(** * The claims *)

Section Claims.
Context {H : Type} `{Hash128Laws H}.

(** C1 -- No false negatives.  Build a filter with [NewBloomFilter size],
    [size >= 1], and drive it through any finite sequence of calls
    ([Add], [Exists], [Info], digests) in which [Add key] occurs
    somewhere: every call returns, and on the filter so obtained
    [Exists key] returns [true] (with index [0]) and leaves the filter
    as it is. *)
Theorem C1_no_false_negatives (size : Z) (cs : list call) (key : string) :
  1 <= size <= int32_max ->
  Forall call_in_range cs ->
  CallAdd key ∈ cs ->
  exists bf0 bf : BloomFilter H,
    NewBloomFilter size = Ok bf0 /\
    run cs bf0 = Ok (tt, bf) /\
    Exists key bf = Ok ((0, true), bf).
Proof.
  intros Hs Hcs Hin.
  destruct (inv_New (H := H) size) as (bf0 & Hnew & Hinv0 & _); [lia|].
  destruct (run_total size cs bf0 Hs Hinv0 Hcs) as [bf Hrun].
  exists bf0, bf. split; [exact Hnew|]. split; [exact Hrun|].
  destruct (run_Ok size cs bf0 bf) as (Hinv & _ & Hcov & _);
    [lia|exact Hinv0|exact Hrun|].
  rewrite (Exists_inv size key bf Hs Hinv).
  specialize (Hcov key Hin). unfold covered in Hcov.
  apply first_unset_None in Hcov. rewrite Hcov. reflexivity.
Qed.

Lemma indices_one (key : string) : indices 1 key = replicate 8 0.
Proof.
  unfold indices, seeds, bit_index. simpl.
  change (uint64_of_int32 1) with 1. rewrite !Z.mod_1_r. reflexivity.
Qed.

(** C2 -- Size-1 degeneracy.  On [NewBloomFilter 1], after one [Add k]
    for any [k], [Exists key] returns [true] for every [key], added or
    not; and it keeps doing so after any further calls. *)
Theorem C2_size_one_all_positive (k key : string) :
  exists bf0 bf1 : BloomFilter H,
    NewBloomFilter 1 = Ok bf0 /\
    Add k bf0 = Ok (tt, bf1) /\
    Exists key bf1 = Ok ((0, true), bf1) /\
    forall cs : list call, Forall call_in_range cs ->
      exists bf : BloomFilter H,
        run cs bf1 = Ok (tt, bf) /\ Exists key bf = Ok ((0, true), bf).
Proof.
  assert (Hs : 1 <= 1 <= int32_max) by (unfold int32_max; lia).
  destruct (inv_New (H := H) 1) as (bf0 & Hnew & Hinv0 & _); [lia|].
  destruct (exec_total 1 (CallAdd k) bf0 Hs Hinv0 I) as [bf1 Hadd].
  destruct (exec_Ok 1 (CallAdd k) bf0 bf1) as (Hinv1 & _ & Hcov & _);
    [unfold int32_max; lia|exact Hinv0|exact Hadd|].
  specialize (Hcov k eq_refl).
  assert (Hcov1 : covered 1 key bf1).
  { unfold covered in *. rewrite indices_one in *. exact Hcov. }
  assert (Hyes : forall bf, inv 1 bf -> covered 1 key bf ->
                            Exists key bf = Ok ((0, true), bf)).
  { intros bf Hinv Hc. rewrite (Exists_inv 1 key bf Hs Hinv).
    apply first_unset_None in Hc. rewrite Hc. reflexivity. }
  exists bf0, bf1. split; [exact Hnew|]. split; [exact Hadd|].
  split; [apply Hyes; assumption|].
  intros cs Hcs. destruct (run_total 1 cs bf1 Hs Hinv1 Hcs) as [bf Hrun].
  exists bf. split; [exact Hrun|].
  destruct (run_Ok 1 cs bf1 bf) as (Hinv & Hle & _ & _);
    [unfold int32_max; lia|exact Hinv1|exact Hrun|].
  apply Hyes; [exact Hinv|]. apply (covered_mono 1 key bf1); assumption.
Qed.

Lemma Exists_full_loop_inv (size : Z) (key : string) (todo ss : list Z) (bf : BloomFilter H) :
  1 <= size <= int32_max -> inv size bf -> Forall2 selects todo ss ->
  Exists_full_loop key todo bf =
    Ok (forallb (bit (Store bf)) (bit_index size key <$> ss), bf).
Proof.
  intros Hs Hinv Hsel.
  induction Hsel as [|i seed todo ss Hi Hsel IH].
  - reflexivity.
  - cbn [Exists_full_loop]. rewrite (index_step size key i seed) by assumption.
    pose proof (bit_index_range size key seed Hs) as Hr.
    pose proof Hinv as (HS & HL & HB).
    unfold bind at 1. rewrite Store_get_ok by lia.
    unfold bind. rewrite IH. reflexivity.
Qed.

Lemma Exists_full_zero (key : string) (bf : BloomFilter H) :
  inv 0 bf -> Exists_full key bf = Panic PanicDivideByZero.
Proof.
  intros Hinv. unfold Exists_full. change (seqZ 0 8) with (0 :: seqZ 1 7).
  cbn [Exists_full_loop]. apply zero_step. exact Hinv.
Qed.

(** C3 -- Short-circuit equivalence.  On every filter a program can hold
    (built by [NewBloomFilter size], [size >= 0], then any calls), the
    short-circuiting [Exists] and the full evaluation [Exists_full], which
    computes all eight indices and takes the conjunction of the eight bits,
    give the same outcome: the same boolean and the same filter, or the
    same panic.  For [size >= 1] both return, with the boolean
    "all eight bits are set". *)
Theorem C3_short_circuit_equivalence (size : Z) (bf : BloomFilter H) (key : string) :
  0 <= size <= int32_max ->
  reachable size bf ->
  Exists_full key bf =
    match Exists key bf with
    | Ok ((_, b), bf') => Ok (b, bf')
    | Panic p => Panic p
    end /\
  (1 <= size ->
   exists (idx : Z) (b : bool),
     Exists key bf = Ok ((idx, b), bf) /\
     Exists_full key bf = Ok (b, bf) /\
     b = forallb (bit (Store bf)) (indices size key)).
Proof.
  intros Hs Hreach. pose proof (reachable_inv size bf Hs Hreach) as Hinv.
  destruct (Z.eq_dec size 0) as [->|Hne].
  - split; [|lia].
    rewrite (Exists_full_zero key bf Hinv), (Exists_zero key bf Hinv). reflexivity.
  - assert (Hs1 : 1 <= size <= int32_max) by lia.
    assert (Hfull : Exists_full key bf =
                    Ok (forallb (bit (Store bf)) (indices size key), bf)).
    { unfold Exists_full.
      apply Exists_full_loop_inv; [exact Hs1|exact Hinv|exact selects_bank]. }
    rewrite Hfull, (Exists_inv size key bf Hs1 Hinv).
    destruct (first_unset (Store bf) (indices size key)) as [idx|] eqn:Hfu.
    + assert (Hb : forallb (bit (Store bf)) (indices size key) = false).
      { destruct (forallb (bit (Store bf)) (indices size key)) eqn:E; [|reflexivity].
        apply first_unset_None in E. congruence. }
      rewrite Hb. split; [reflexivity|]. intros _. exists idx, false. auto.
    + apply first_unset_None in Hfu. rewrite Hfu. split; [reflexivity|].
      intros _. exists 0, true. auto.
Qed.

(** C4 -- Bit monotonicity.  On every filter a program can hold: [Add]
    keeps the length of [Store] and each bit either keeps its value or goes
    from unset to set; [Exists] and [Info] hand the filter back unchanged;
    hence over any sequence of calls the set bits only grow.  For
    [size >= 1] every such sequence runs to its end. *)
Theorem C4_bit_monotonicity (size : Z) (bf : BloomFilter H) :
  0 <= size <= int32_max ->
  reachable size bf ->
  (forall (key : string) (bf' : BloomFilter H),
     Add key bf = Ok (tt, bf') ->
     length (Store bf') = length (Store bf) /\
     forall i : nat,
       Store bf' !! i = Store bf !! i \/
       (Store bf !! i = Some false /\ Store bf' !! i = Some true)) /\
  (forall (key : string) (r : Z * bool) (bf' : BloomFilter H),
     Exists key bf = Ok (r, bf') -> bf' = bf) /\
  exec CallInfo bf = Ok (tt, bf) /\
  (forall (cs : list call) (bf' : BloomFilter H),
     run cs bf = Ok (tt, bf') -> bits_le (Store bf) (Store bf')) /\
  (1 <= size ->
   forall cs : list call, Forall call_in_range cs ->
     exists bf' : BloomFilter H,
       run cs bf = Ok (tt, bf') /\ bits_le (Store bf) (Store bf')).
Proof.
  intros Hs Hreach. pose proof (reachable_inv size bf Hs Hreach) as Hinv.
  split; [|split; [|split; [|split]]].
  - intros key bf' Hadd. destruct (Z.eq_dec size 0) as [->|Hne].
    + rewrite (Add_zero key bf Hinv) in Hadd. discriminate.
    + rewrite (Add_inv size key bf) in Hadd by (try lia; exact Hinv).
      assert (Hbf' : bf' = {| Store := set_bits (indices size key) (Store bf);
                              Size := Size bf; mHashers := mHashers bf |})
        by congruence.
      subst bf'. cbn [Store]. split; [apply length_set_bits|].
      intros i. apply set_bits_lookup.
  - intros key r bf' Hex. destruct (Z.eq_dec size 0) as [->|Hne].
    + rewrite (Exists_zero key bf Hinv) in Hex. discriminate.
    + rewrite (Exists_inv size key bf) in Hex by (try lia; exact Hinv).
      congruence.
  - reflexivity.
  - intros cs bf' Hrun. apply (run_Ok size cs bf bf' Hs Hinv Hrun).
  - intros Hs1 cs Hcs.
    destruct (run_total size cs bf) as [bf' Hrun]; [lia|exact Hinv|exact Hcs|].
    exists bf'. split; [exact Hrun|]. apply (run_Ok size cs bf bf' Hs Hinv Hrun).
Qed.

(** C5 -- Digest determinism.  For a key and a hash index [0 <= i < 8],
    [ComputeMurmurHash key i] returns one and the same [uint64] value on
    every filter a program can hold, whatever its size and whatever calls
    went before, and leaves the filter (its hashers included) as it was;
    so two calls in a row return the same value twice. *)
Theorem C5_digest_determinism (size1 size2 : Z) (bf1 bf2 : BloomFilter H)
        (key : string) (i : Z) :
  0 <= size1 <= int32_max ->
  0 <= size2 <= int32_max ->
  reachable size1 bf1 ->
  reachable size2 bf2 ->
  0 <= i < 8 ->
  exists v : Z,
    0 <= v < uint64_modulus /\
    ComputeMurmurHash key i bf1 = Ok (v, bf1) /\
    ComputeMurmurHash key i bf2 = Ok (v, bf2) /\
    (let* a := ComputeMurmurHash key i in
     let* b := ComputeMurmurHash key i in
     ret (a, b)) bf1 = Ok ((v, v), bf1).
Proof.
  intros Hs1 Hs2 Hr1 Hr2 Hi.
  pose proof (reachable_inv size1 bf1 Hs1 Hr1) as Hinv1.
  pose proof (reachable_inv size2 bf2 Hs2 Hr2) as Hinv2.
  destruct (ComputeMurmurHash_inv size1 key i bf1 Hinv1 Hi) as (s1 & [_ Hsel1] & E1).
  destruct (ComputeMurmurHash_inv size2 key i bf2 Hinv2 Hi) as (s2 & [_ Hsel2] & E2).
  assert (s2 = s1) by congruence. subst s2.
  exists (digest s1 key). split; [apply digest_uint64|].
  split; [exact E1|]. split; [exact E2|].
  unfold bind. rewrite E1, E1. reflexivity.
Qed.

(** C6 -- Construction.  For an [int32] size: a negative size makes
    construction fail (the allocation panics); size [0] gives an empty
    filter on which neither [Add] nor [Exists] is defined (both panic);
    every size [>= 1] gives a filter whose [Store] has exactly [size]
    entries, all unset, whose [Size] is [size], and whose bank is the eight
    hashers built from the eight pairwise distinct seeds. *)
Theorem C6_construction (size : Z) :
  int32_min <= size <= int32_max ->
  (size < 0 -> NewBloomFilter (H := H) size = Panic PanicMakesliceLen) /\
  (size = 0 ->
   exists bf0 : BloomFilter H,
     NewBloomFilter size = Ok bf0 /\ Store bf0 = [] /\
     forall key : string,
       Add key bf0 = Panic PanicDivideByZero /\
       Exists key bf0 = Panic PanicDivideByZero) /\
  (1 <= size ->
   exists bf0 : BloomFilter H,
     NewBloomFilter size = Ok bf0 /\
     Z.of_nat (length (Store bf0)) = size /\
     (forall (i : nat) (b : bool), Store bf0 !! i = Some b -> b = false) /\
     Size bf0 = size /\
     mHashers bf0 = New128WithSeed <$> seeds /\
     length (mHashers bf0) = 8%nat /\
     NoDup seeds).
Proof.
  intros Hs. split; [|split].
  - intros Hneg. unfold NewBloomFilter.
    destruct (Z.ltb_spec size 0); [reflexivity|lia].
  - intros ->. destruct (inv_New (H := H) 0) as (bf0 & Hnew & Hinv0 & Hst); [lia|].
    exists bf0. split; [exact Hnew|]. split; [exact Hst|].
    intros key. split; [apply Add_zero|apply Exists_zero]; exact Hinv0.
  - intros Hpos. destruct (inv_New (H := H) size) as (bf0 & Hnew & Hinv0 & Hst); [lia|].
    destruct Hinv0 as (HS & HL & HB).
    exists bf0. split; [exact Hnew|]. split; [rewrite HL; lia|].
    split; [|split; [exact HS|split; [exact HB|split]]].
    + intros i b. rewrite Hst. intros Hl.
      apply lookup_replicate in Hl as [-> _]. reflexivity.
    + rewrite HB. reflexivity.
    + unfold seeds. compute_done.
Qed.

Lemma bit_in_store (store : list bool) (idx : Z) (b : bool) :
  (Z.to_nat idx < length store)%nat ->
  bit store idx = b -> store !! Z.to_nat idx = Some b.
Proof.
  intros Hlt. unfold bit. destruct (store !! Z.to_nat idx) eqn:E.
  - congruence.
  - apply lookup_ge_None in E. lia.
Qed.

(** The digest and the index the loops compute at counter [i]. *)
Lemma hash_at (size : Z) (key : string) (i : Z) (bf : BloomFilter H) :
  1 <= size <= int32_max -> inv size bf -> 0 <= i < 8 ->
  exists d : Z,
    ComputeMurmurHash key i bf = Ok (d, bf) /\
    indices size key !! Z.to_nat i = Some (d mod size) /\
    0 <= d mod size < size.
Proof.
  intros Hs Hinv Hi.
  destruct (ComputeMurmurHash_inv size key i bf Hinv Hi) as (seed & [_ Hsel] & E).
  exists (digest seed key). split; [exact E|].
  pose proof (bit_index_range size key seed Hs) as Hr.
  unfold bit_index in Hr. rewrite uint64_of_int32_nonneg in Hr by lia.
  split; [|exact Hr].
  unfold indices. rewrite list_lookup_fmap, Hsel. simpl.
  unfold bit_index. rewrite uint64_of_int32_nonneg by lia. reflexivity.
Qed.

(** C9 -- The size precondition is enforced lazily.  [NewBloomFilter 0]
    returns a filter (empty [Store]) without failing, and on it, and on
    whatever it has become after calls that returned, every [Add] and
    every [Exists] panics with a division by zero; a negative size panics
    inside [NewBloomFilter]; for [size >= 1], on every filter a program can
    hold, [Add], [Exists] and [Info] return, and each index
    [digest mod size] they compute lies in [[0, size)], inside [Store]. *)
Theorem C9_size_precondition :
  (exists bf0 : BloomFilter H,
     NewBloomFilter 0 = Ok bf0 /\ Store bf0 = [] /\ Size bf0 = 0 /\
     forall (cs : list call) (bf : BloomFilter H),
       run cs bf0 = Ok (tt, bf) ->
       forall key : string,
         Add key bf = Panic PanicDivideByZero /\
         Exists key bf = Panic PanicDivideByZero) /\
  (forall size : Z,
     int32_min <= size < 0 ->
     NewBloomFilter (H := H) size = Panic PanicMakesliceLen) /\
  (forall (size : Z) (bf : BloomFilter H) (key : string),
     1 <= size <= int32_max ->
     reachable size bf ->
     (exists bf' : BloomFilter H,
        Add key bf = Ok (tt, bf') /\
        Store bf' = set_bits (indices size key) (Store bf)) /\
     (exists (idx : Z) (b : bool),
        Exists key bf = Ok ((idx, b), bf) /\ 0 <= idx < size) /\
     Info bf = {[ "size" := any_int32 size; "totalHashFuncs" := any_int 8 ]} /\
     (forall i : Z, 0 <= i < 8 ->
        exists d : Z,
          ComputeMurmurHash key i bf = Ok (d, bf) /\
          0 <= d mod uint64_of_int32 (Size bf) < size /\
          d mod uint64_of_int32 (Size bf) < Z.of_nat (length (Store bf)))).
Proof.
  split; [|split].
  - destruct (inv_New (H := H) 0) as (bf0 & Hnew & Hinv0 & Hst); [lia|].
    exists bf0. split; [exact Hnew|]. split; [exact Hst|].
    split; [apply Hinv0|].
    intros cs bf Hrun key.
    destruct (run_Ok 0 cs bf0 bf) as (Hinv & _);
      [unfold int32_max; lia|exact Hinv0|exact Hrun|].
    split; [apply Add_zero|apply Exists_zero]; exact Hinv.
  - intros size Hneg. unfold NewBloomFilter.
    destruct (Z.ltb_spec size 0); [reflexivity|lia].
  - intros size bf key Hs Hreach.
    assert (Hinv : inv size bf) by (apply reachable_inv; [lia|exact Hreach]).
    pose proof Hinv as (HS & HL & HB).
    split; [|split; [|split]].
    + eexists. split; [apply (Add_inv size key bf Hs Hinv)|reflexivity].
    + rewrite (Exists_inv size key bf Hs Hinv).
      destruct (first_unset (Store bf) (indices size key)) as [idx|] eqn:Hfu.
      * exists idx, false. split; [reflexivity|].
        apply first_unset_Some in Hfu as (n & Hn & _).
        unfold indices in Hn. rewrite list_lookup_fmap in Hn.
        destruct (seeds !! n) as [seed|]; [|discriminate].
        injection Hn as <-. apply bit_index_range. exact Hs.
      * exists 0, true. split; [reflexivity|lia].
    + unfold Info. rewrite HS, HB. reflexivity.
    + intros i Hi. destruct (hash_at size key i bf Hs Hinv Hi) as (d & E & _ & Hr).
      exists d. split; [exact E|].
      rewrite HS, uint64_of_int32_nonneg, HL by lia. lia.
Qed.

(** C10 -- Shape of the membership result.  On every filter a program can
    hold ([size >= 1]) [Exists key] returns a pair [(idx, b)] and the
    filter unchanged.  If [b] is [false], [idx] is [digest mod Size] for
    the first hash index [i], in bank order, whose bit is unset: the bit at
    [idx] is unset and the bits of all earlier hash indices are set.  If
    [b] is [true], [idx] is [0] and the bits of all eight indices are
    set. *)
Theorem C10_Exists_result_shape (size : Z) (bf : BloomFilter H) (key : string) :
  1 <= size <= int32_max ->
  reachable size bf ->
  exists (idx : Z) (b : bool),
    Exists key bf = Ok ((idx, b), bf) /\
    (b = true ->
     idx = 0 /\
     forall i : Z, 0 <= i < 8 ->
       exists d : Z,
         ComputeMurmurHash key i bf = Ok (d, bf) /\
         Store bf !! Z.to_nat (d mod uint64_of_int32 (Size bf)) = Some true) /\
    (b = false ->
     exists i d : Z,
       0 <= i < 8 /\
       ComputeMurmurHash key i bf = Ok (d, bf) /\
       idx = d mod uint64_of_int32 (Size bf) /\
       Store bf !! Z.to_nat idx = Some false /\
       forall j : Z, 0 <= j < i ->
         exists d' : Z,
           ComputeMurmurHash key j bf = Ok (d', bf) /\
           Store bf !! Z.to_nat (d' mod uint64_of_int32 (Size bf)) = Some true).
Proof.
  intros Hs Hreach.
  assert (Hinv : inv size bf) by (apply reachable_inv; [lia|exact Hreach]).
  pose proof Hinv as (HS & HL & HB).
  assert (Hlen : Z.of_nat (length (Store bf)) = size) by lia.
  rewrite (Exists_inv size key bf Hs Hinv), HS, uint64_of_int32_nonneg by lia.
  destruct (first_unset (Store bf) (indices size key)) as [idx|] eqn:Hfu.
  - exists idx, false. split; [reflexivity|]. split; [discriminate|]. intros _.
    apply first_unset_Some in Hfu as (n & Hn & Hbit & Hpre).
    pose proof (lookup_lt_Some _ _ _ Hn) as Hlt.
    unfold indices in Hlt. rewrite length_fmap in Hlt. simpl in Hlt.
    destruct (hash_at size key (Z.of_nat n) bf Hs Hinv) as (d & E & Hd & Hr); [lia|].
    rewrite Nat2Z.id in Hd. assert (idx = d mod size) by congruence. subst idx.
    exists (Z.of_nat n), d. split; [lia|]. split; [exact E|]. split; [reflexivity|].
    split; [apply bit_in_store; [lia|exact Hbit]|].
    intros j Hj.
    destruct (hash_at size key j bf Hs Hinv) as (d' & E' & Hd' & Hr'); [lia|].
    exists d'. split; [exact E'|]. apply bit_in_store; [lia|].
    apply (Hpre (Z.to_nat j)); [lia|exact Hd'].
  - exists 0, true. split; [reflexivity|]. split; [|discriminate]. intros _.
    split; [reflexivity|]. intros i Hi.
    destruct (hash_at size key i bf Hs Hinv Hi) as (d & E & Hd & Hr).
    exists d. split; [exact E|]. apply bit_in_store; [lia|].
    apply first_unset_None in Hfu.
    assert (Hall : forall x, In x (indices size key) -> bit (Store bf) x = true)
      by (apply forallb_forall; exact Hfu).
    apply Hall, list_elem_of_In, list_elem_of_lookup. eauto.
Qed.

End Claims.

(** C1 at size 10 on the small hasher. *)
Lemma C1_witness :
  1 <= 10 <= int32_max /\
  exists bf0 bf : BloomFilter PolyHash.t,
    NewBloomFilter 10 = Ok bf0 /\
    run [CallAdd "a"; CallExists "b"; CallAdd "c"; CallInfo] bf0 = Ok (tt, bf) /\
    Exists "a" bf = Ok ((0, true), bf).
Proof.
  split; [unfold int32_max; lia|].
  apply (C1_no_false_negatives (H := PolyHash.t) 10).
  - unfold int32_max. lia.
  - repeat constructor.
  - apply list_elem_of_here.
Defined.

(** C2 on the small hasher: add ["a"], query ["never-added"]. *)
Lemma C2_witness :
  exists bf0 bf1 : BloomFilter PolyHash.t,
    NewBloomFilter 1 = Ok bf0 /\
    Add "a" bf0 = Ok (tt, bf1) /\
    Exists "never-added" bf1 = Ok ((0, true), bf1) /\
    forall cs : list call, Forall call_in_range cs ->
      exists bf : BloomFilter PolyHash.t,
        run cs bf1 = Ok (tt, bf) /\ Exists "never-added" bf = Ok ((0, true), bf).
Proof.
  exact (C2_size_one_all_positive (H := PolyHash.t) "a" "never-added").
Defined.

(** C3 on [sample_filter]: size 10, after [Add "a"], querying ["b"]. *)
Lemma C3_witness :
  0 <= 10 <= int32_max /\
  reachable 10 sample_filter /\
  Exists_full "b" sample_filter =
    match Exists "b" sample_filter with
    | Ok ((_, b), bf') => Ok (b, bf')
    | Panic p => Panic p
    end.
Proof.
  assert (Hs : 0 <= 10 <= int32_max) by (unfold int32_max; lia).
  assert (Hr : reachable 10 sample_filter).
  { exists empty_filter10, [CallAdd "a"]. split; reflexivity. }
  split; [exact Hs|]. split; [exact Hr|].
  apply (C3_short_circuit_equivalence (H := PolyHash.t) 10 sample_filter "b" Hs Hr).
Defined.

(** C4 on [sample_filter]. *)
Lemma C4_witness :
  0 <= 10 <= int32_max /\
  reachable 10 sample_filter /\
  (forall (key : string) (bf' : BloomFilter PolyHash.t),
     Add key sample_filter = Ok (tt, bf') ->
     length (Store bf') = length (Store sample_filter) /\
     forall i : nat,
       Store bf' !! i = Store sample_filter !! i \/
       (Store sample_filter !! i = Some false /\ Store bf' !! i = Some true)) /\
  (forall (key : string) (r : Z * bool) (bf' : BloomFilter PolyHash.t),
     Exists key sample_filter = Ok (r, bf') -> bf' = sample_filter) /\
  exec CallInfo sample_filter = Ok (tt, sample_filter) /\
  (forall (cs : list call) (bf' : BloomFilter PolyHash.t),
     run cs sample_filter = Ok (tt, bf') ->
     bits_le (Store sample_filter) (Store bf')) /\
  (1 <= 10 ->
   forall cs : list call, Forall call_in_range cs ->
     exists bf' : BloomFilter PolyHash.t,
       run cs sample_filter = Ok (tt, bf') /\
       bits_le (Store sample_filter) (Store bf')).
Proof.
  assert (Hs : 0 <= 10 <= int32_max) by (unfold int32_max; lia).
  assert (Hr : reachable 10 sample_filter).
  { exists empty_filter10, [CallAdd "a"]. split; reflexivity. }
  split; [exact Hs|]. split; [exact Hr|].
  apply (C4_bit_monotonicity (H := PolyHash.t) 10 sample_filter Hs Hr).
Defined.

(** C5 on two filters of sizes 10 and 3, key ["a"], hash index 3. *)
Lemma C5_witness :
  0 <= 10 <= int32_max /\ 0 <= 3 <= int32_max /\
  reachable 10 sample_filter /\ reachable 3 empty_filter3 /\ 0 <= 3 < 8 /\
  exists v : Z,
    0 <= v < uint64_modulus /\
    ComputeMurmurHash "a" 3 sample_filter = Ok (v, sample_filter) /\
    ComputeMurmurHash "a" 3 empty_filter3 = Ok (v, empty_filter3) /\
    (let* a := ComputeMurmurHash "a" 3 in
     let* b := ComputeMurmurHash "a" 3 in
     ret (a, b)) sample_filter = Ok ((v, v), sample_filter).
Proof.
  assert (Hs1 : 0 <= 10 <= int32_max) by (unfold int32_max; lia).
  assert (Hs2 : 0 <= 3 <= int32_max) by (unfold int32_max; lia).
  assert (Hr1 : reachable 10 sample_filter).
  { exists empty_filter10, [CallAdd "a"]. split; reflexivity. }
  assert (Hr2 : reachable 3 empty_filter3).
  { exists empty_filter3, []. split; reflexivity. }
  assert (Hi : 0 <= 3 < 8) by lia.
  split; [exact Hs1|]. split; [exact Hs2|]. split; [exact Hr1|].
  split; [exact Hr2|]. split; [exact Hi|].
  apply (C5_digest_determinism (H := PolyHash.t) 10 3 sample_filter empty_filter3
           "a" 3 Hs1 Hs2 Hr1 Hr2 Hi).
Defined.

(** C6 at size 1000 on the small hasher. *)
Lemma C6_witness :
  int32_min <= 1000 <= int32_max /\
  exists bf0 : BloomFilter PolyHash.t,
    NewBloomFilter 1000 = Ok bf0 /\
    Z.of_nat (length (Store bf0)) = 1000 /\
    (forall (i : nat) (b : bool), Store bf0 !! i = Some b -> b = false) /\
    Size bf0 = 1000 /\
    mHashers bf0 = New128WithSeed <$> seeds /\
    length (mHashers bf0) = 8%nat /\
    NoDup seeds.
Proof.
  assert (Hs : int32_min <= 1000 <= int32_max)
    by (unfold int32_min, int32_max; lia).
  split; [exact Hs|].
  apply (C6_construction (H := PolyHash.t) 1000 Hs). lia.
Defined.

(** C9 on the small hasher: size 0, size -1, and [sample_filter]. *)
Lemma C9_witness :
  (exists bf0 : BloomFilter PolyHash.t,
     NewBloomFilter 0 = Ok bf0 /\
     Add "a" bf0 = Panic PanicDivideByZero /\
     Exists "a" bf0 = Panic PanicDivideByZero) /\
  NewBloomFilter (H := PolyHash.t) (-1) = Panic PanicMakesliceLen /\
  (exists (idx : Z) (b : bool),
     Exists "b" sample_filter = Ok ((idx, b), sample_filter) /\ 0 <= idx < 10).
Proof.
  destruct (C9_size_precondition (H := PolyHash.t)) as (Hzero & Hneg & Hpos).
  split; [|split].
  - destruct Hzero as (bf0 & Hnew & _ & _ & Hpanic).
    exists bf0. split; [exact Hnew|]. apply (Hpanic [] bf0). reflexivity.
  - apply Hneg. unfold int32_min. lia.
  - apply (Hpos 10 sample_filter "b").
    + unfold int32_max. lia.
    + exists empty_filter10, [CallAdd "a"]. split; reflexivity.
Defined.

(** C10 on [sample_filter], querying ["b"]. *)
Lemma C10_witness :
  1 <= 10 <= int32_max /\
  reachable 10 sample_filter /\
  exists (idx : Z) (b : bool),
    Exists "b" sample_filter = Ok ((idx, b), sample_filter) /\
    (b = true ->
     idx = 0 /\
     forall i : Z, 0 <= i < 8 ->
       exists d : Z,
         ComputeMurmurHash "b" i sample_filter = Ok (d, sample_filter) /\
         Store sample_filter
           !! Z.to_nat (d mod uint64_of_int32 (Size sample_filter)) = Some true) /\
    (b = false ->
     exists i d : Z,
       0 <= i < 8 /\
       ComputeMurmurHash "b" i sample_filter = Ok (d, sample_filter) /\
       idx = d mod uint64_of_int32 (Size sample_filter) /\
       Store sample_filter !! Z.to_nat idx = Some false /\
       forall j : Z, 0 <= j < i ->
         exists d' : Z,
           ComputeMurmurHash "b" j sample_filter = Ok (d', sample_filter) /\
           Store sample_filter
             !! Z.to_nat (d' mod uint64_of_int32 (Size sample_filter)) = Some true).
Proof.
  assert (Hs : 1 <= 10 <= int32_max) by (unfold int32_max; lia).
  assert (Hr : reachable 10 sample_filter).
  { exists empty_filter10, [CallAdd "a"]. split; reflexivity. }
  split; [exact Hs|]. split; [exact Hr|].
  apply (C10_Exists_result_shape (H := PolyHash.t) 10 sample_filter "b" Hs Hr).
Defined.

(** ** The sweep of [main] *)

Lemma elem_of_sweep (s bfsize BloomFilterSize : Z) :
  s ∈ sweep bfsize BloomFilterSize <->
  exists k : Z, 0 <= k /\ s = bfsize + 10000 * k /\ s <= BloomFilterSize.
Proof.
  revert s. funelim (sweep bfsize BloomFilterSize); intros s.
  - rewrite elem_of_cons.
    match goal with IH : forall s, s ∈ sweep _ _ <-> _ |- _ => rewrite IH end.
    split.
    + intros [->|(k & Hk & -> & Hle)].
      * exists 0. lia.
      * exists (k + 1). lia.
    + intros (k & Hk & -> & Hle). destruct (Z.eq_dec k 0) as [->|Hne].
      * left. lia.
      * right. exists (k - 1). lia.
  - split.
    + intros Hin. inversion Hin.
    + intros (k & Hk & -> & Hle). lia.
Qed.

(** C7, as the code has it -- Sweep range.  [main] starts one
    [PerformTests] per value of a loop that begins at 1,000, advances by
    10,000 and runs while the size is at most 100,000: the sizes swept are
    the ten sizes 1000, 11000, ..., 91000, each once, exactly the sizes
    [1000 + 10000 * k] not above 100,000; none exceeds 91,000; and for each
    one [PerformTests] builds a fresh, all-unset filter of that size. *)
Theorem C7_sweep_range :
  main_sweep = [1000; 11000; 21000; 31000; 41000; 51000; 61000; 71000; 81000; 91000] /\
  NoDup main_sweep /\
  (forall s : Z,
     s ∈ main_sweep <->
     exists k : Z, 0 <= k /\ s = 1000 + 10000 * k /\ s <= 100000) /\
  (forall s : Z, s ∈ main_sweep -> s <= 91000) /\
  (forall (H : Type) (hash : Hash128 H) (s : Z),
     s ∈ main_sweep ->
     exists bf0 : BloomFilter H,
       PerformTests_bloom s = Ok bf0 /\
       Size bf0 = s /\
       Store bf0 = replicate (Z.to_nat s) false).
Proof.
  assert (Hlist : main_sweep =
    [1000; 11000; 21000; 31000; 41000; 51000; 61000; 71000; 81000; 91000])
    by reflexivity.
  split; [exact Hlist|]. split; [rewrite Hlist; compute_done|].
  split; [intros s; apply elem_of_sweep|].
  assert (Hmax : forall s : Z, s ∈ main_sweep -> s <= 91000).
  { intros s Hin. apply elem_of_sweep in Hin as (k & Hk & -> & Hle). lia. }
  split; [exact Hmax|].
  intros H hash s Hin. pose proof (Hmax s Hin) as Hle.
  apply elem_of_sweep in Hin as (k & Hk & Hs & _).
  unfold PerformTests_bloom, NewBloomFilter.
  assert (Hconv : int32_of_int s = s).
  { unfold int32_of_int. rewrite Z.mod_small; lia. }
  rewrite Hconv. destruct (Z.ltb_spec s 0); [lia|].
  eexists. split; [reflexivity|]. split; reflexivity.
Qed.

(** C7, as stated, fails: 100,000 is not one of the sizes swept. *)
Lemma C7_counterexample : ~ (100000 ∈ main_sweep).
Proof.
  unfold main_sweep. rewrite elem_of_sweep. intros (k & Hk & Heq & _). lia.
Qed.


(** ** The dataset generator *)

Section DatasetFacts.
Variable uuid_New : nat -> string.

Lemma draws_S (from len : nat) :
  draws uuid_New from (S len) = uuid_New from :: draws uuid_New (S from) len.
Proof. reflexivity. Qed.

Lemma length_draws (from len : nat) : length (draws uuid_New from len) = len.
Proof. unfold draws. rewrite length_fmap, length_seq. reflexivity. Qed.

Lemma elem_of_draws (from len : nat) (x : string) :
  x ∈ draws uuid_New from len -> exists k : nat, x = uuid_New k.
Proof. unfold draws. intros (k & -> & _)%list_elem_of_fmap. eauto. Qed.

(** The first loop appends one fresh identifier per round to the dataset
    and enters it in the train map. *)
Lemma train_loop (l : list Z) (g : generating) :
  let g' := foldl (train_step uuid_New) g l in
  dataset g' = dataset g ++ draws uuid_New (drawn g) (length l) /\
  dom (trainDataset g') =
    dom (trainDataset g) ∪ list_to_set (draws uuid_New (drawn g) (length l)) /\
  testDataset g' = testDataset g /\
  drawn g' = (drawn g + length l)%nat.
Proof.
  revert g. induction l as [|i l IH]; intros g; cbn [foldl length].
  - cbn zeta. unfold draws. cbn [seq fmap list_fmap list_to_set foldr].
    rewrite app_nil_r, (right_id_L ∅ (∪)).
    split; [reflexivity|]. split; [reflexivity|]. split; [reflexivity|lia].
  - destruct (IH (train_step uuid_New g i)) as (Hd & Ht & He & Hn).
    cbn zeta in *. rewrite Hd, Ht, He, Hn, draws_S.
    cbn [train_step dataset trainDataset testDataset drawn].
    rewrite dom_insert_L, <- app_assoc. cbn [list_to_set foldr].
    rewrite (comm_L (∪) {[uuid_New (drawn g)]} (dom _)), <- (assoc_L (∪)).
    split; [reflexivity|]. split; [reflexivity|]. split; [reflexivity|lia].
Qed.

(** The second loop does the same with the test map. *)
Lemma test_loop (l : list Z) (g : generating) :
  let g' := foldl (test_step uuid_New) g l in
  dataset g' = dataset g ++ draws uuid_New (drawn g) (length l) /\
  trainDataset g' = trainDataset g /\
  dom (testDataset g') =
    dom (testDataset g) ∪ list_to_set (draws uuid_New (drawn g) (length l)) /\
  drawn g' = (drawn g + length l)%nat.
Proof.
  revert g. induction l as [|i l IH]; intros g; cbn [foldl length].
  - cbn zeta. unfold draws. cbn [seq fmap list_fmap list_to_set foldr].
    rewrite app_nil_r, (right_id_L ∅ (∪)).
    split; [reflexivity|]. split; [reflexivity|]. split; [reflexivity|lia].
  - destruct (IH (test_step uuid_New g i)) as (Hd & Ht & He & Hn).
    cbn zeta in *. rewrite Hd, Ht, He, Hn, draws_S.
    cbn [test_step dataset trainDataset testDataset drawn].
    rewrite dom_insert_L, <- app_assoc. cbn [list_to_set foldr].
    rewrite (comm_L (∪) {[uuid_New (drawn g)]} (dom _)), <- (assoc_L (∪)).
    split; [reflexivity|]. split; [reflexivity|]. split; [reflexivity|lia].
Qed.

(** What [generateDataset n] returns, in terms of the identifiers drawn. *)
Lemma generateDataset_draws (n : Z) :
  exists (train test : gmap string bool),
    generateDataset uuid_New n =
      ("" :: draws uuid_New 0 (Z.to_nat (Z.quot n 2))
          ++ draws uuid_New (Z.to_nat (Z.quot n 2)) (Z.to_nat (n - (Z.quot n 2 + 1))),
       train, test) /\
    dom train = list_to_set (draws uuid_New 0 (Z.to_nat (Z.quot n 2))) /\
    dom test =
      list_to_set (draws uuid_New (Z.to_nat (Z.quot n 2))
                         (Z.to_nat (n - (Z.quot n 2 + 1)))).
Proof.
  unfold generateDataset.
  set (g0 := {| dataset := [""]; trainDataset := ∅; testDataset := ∅; drawn := 0 |}).
  destruct (train_loop (seqZ 0 (Z.quot n 2 - 0)) g0) as (Hd1 & Ht1 & He1 & Hn1).
  set (g1 := foldl (train_step uuid_New) g0 (seqZ 0 (Z.quot n 2 - 0))) in *.
  destruct (test_loop (seqZ (Z.quot n 2 + 1) (n - (Z.quot n 2 + 1))) g1)
    as (Hd2 & Ht2 & He2 & Hn2).
  set (g2 := foldl (test_step uuid_New) g1 _) in *.
  cbn zeta in *. rewrite length_seqZ in *.
  rewrite Z.sub_0_r in *.
  cbn [drawn dataset trainDataset testDataset g0] in *.
  rewrite Hn1 in *. rewrite Nat.add_0_l in *.
  exists (trainDataset g2), (testDataset g2). split; [|split].
  - rewrite Hd2, Hd1. rewrite <- app_assoc. reflexivity.
  - rewrite Ht2, Ht1, dom_empty_L. apply (left_id_L ∅ (∪)).
  - rewrite He2, He1, dom_empty_L. apply (left_id_L ∅ (∪)).
Qed.

End DatasetFacts.

(** The two loops together draw [n - 1] identifiers. *)
Lemma half_split (n : Z) :
  2 <= n ->
  1 <= Z.quot n 2 /\ 0 <= n - (Z.quot n 2 + 1) /\
  (Z.to_nat (Z.quot n 2) + Z.to_nat (n - (Z.quot n 2 + 1)))%nat = Z.to_nat (n - 1).
Proof.
  intros Hn. rewrite Z.quot_div_nonneg by lia.
  pose proof (Z.div_mod n 2 ltac:(lia)) as Hdm.
  pose proof (Z.mod_pos_bound n 2 ltac:(lia)) as Hmod.
  lia.
Qed.

(** C8 -- Shape of the generated dataset.  For [n >= 2], when the
    identifiers drawn are non-empty and pairwise distinct,
    [generateDataset n] returns a dataset of exactly [n] strings whose
    first element is the empty string, which is a key of neither map; the
    train map has [n/2] keys and the test map [n - n/2 - 1]; the two maps
    share no key.  For [n = 20000] that is 10,000 and 9,999 keys. *)
Theorem C8_generateDataset_shape (uuid_New : nat -> string) (n : Z) :
  2 <= n ->
  (forall k : nat, uuid_New k <> "") ->
  NoDup (uuid_New <$> seq 0 (Z.to_nat (n - 1))) ->
  exists (ds : list string) (train test : gmap string bool),
    generateDataset uuid_New n = (ds, train, test) /\
    Z.of_nat (length ds) = n /\
    ds !! 0%nat = Some "" /\
    train !! "" = None /\
    test !! "" = None /\
    Z.of_nat (size train) = Z.quot n 2 /\
    Z.of_nat (size test) = n - Z.quot n 2 - 1 /\
    dom train ## dom test /\
    (n = 20000 ->
     Z.of_nat (size train) = 10000 /\ Z.of_nat (size test) = 9999).
Proof.
  intros Hn Hne Hnd.
  destruct (half_split n Hn) as (Ha & Hb & Hab).
  destruct (generateDataset_draws uuid_New n) as (train & test & Hgen & Htr & Hte).
  set (a := Z.to_nat (Z.quot n 2)) in *.
  set (b := Z.to_nat (n - (Z.quot n 2 + 1))) in *.
  rewrite <- Hab, seq_app, fmap_app in Hnd. simpl in Hnd.
  fold (draws uuid_New 0 a) in Hnd. fold (draws uuid_New a b) in Hnd.
  apply NoDup_app in Hnd as (Hnd1 & Hdisj & Hnd2).
  assert (Hsz1 : Z.of_nat (size train) = Z.quot n 2).
  { rewrite <- size_dom, Htr, size_list_to_set by exact Hnd1.
    rewrite length_draws. unfold a. lia. }
  assert (Hsz2 : Z.of_nat (size test) = n - Z.quot n 2 - 1).
  { rewrite <- size_dom, Hte, size_list_to_set by exact Hnd2.
    rewrite length_draws. unfold b. lia. }
  eexists _, train, test. split; [exact Hgen|].
  split; [cbn [length]; rewrite length_app, !length_draws; lia|].
  split; [reflexivity|].
  split.
  { apply not_elem_of_dom. rewrite Htr, elem_of_list_to_set.
    intros [k Hk]%elem_of_draws. exact (Hne k (eq_sym Hk)). }
  split.
  { apply not_elem_of_dom. rewrite Hte, elem_of_list_to_set.
    intros [k Hk]%elem_of_draws. exact (Hne k (eq_sym Hk)). }
  split; [exact Hsz1|]. split; [exact Hsz2|].
  split.
  { rewrite Htr, Hte. intros x Hx1 Hx2.
    apply elem_of_list_to_set in Hx1, Hx2. exact (Hdisj x Hx1 Hx2). }
  intros Hn20. rewrite Hsz1, Hsz2, Hn20. split; reflexivity.
Qed.

#[global] Instance numbered_uuid_inj : Inj (=) (=) numbered_uuid.
Proof.
  intros j k Heq. unfold numbered_uuid in Heq. simpl in Heq.
  injection Heq as Heq. exact (pretty_nat_inj _ _ Heq).
Qed.

(** C8 at the reference size 20,000, on numbered identifiers. *)
Lemma C8_witness :
  2 <= 20000 /\
  exists (ds : list string) (train test : gmap string bool),
    generateDataset numbered_uuid 20000 = (ds, train, test) /\
    Z.of_nat (length ds) = 20000 /\
    ds !! 0%nat = Some "" /\
    train !! "" = None /\
    test !! "" = None /\
    Z.of_nat (size train) = Z.quot 20000 2 /\
    Z.of_nat (size test) = 20000 - Z.quot 20000 2 - 1 /\
    dom train ## dom test /\
    (20000 = 20000 ->
     Z.of_nat (size train) = 10000 /\ Z.of_nat (size test) = 9999).
Proof.
  split; [lia|].
  apply (C8_generateDataset_shape numbered_uuid 20000).
  - lia.
  - intros k. unfold numbered_uuid. simpl. discriminate.
  - apply (NoDup_fmap_2 numbered_uuid). apply NoDup_seq.
Defined.

(** * Beyond the claims *)

(** ** More on bit arrays and runs *)

Lemma set_bits_app (idxs1 idxs2 : list Z) (store : list bool) :
  set_bits (idxs1 ++ idxs2) store = set_bits idxs2 (set_bits idxs1 store).
Proof. unfold set_bits. apply foldl_app. Qed.

Lemma set_bits_lookup_exact (idxs : list Z) (store : list bool) (n : nat) :
  set_bits idxs store !! n = (fun b => b || hit idxs n) <$> store !! n.
Proof.
  revert store. induction idxs as [|idx idxs IH]; intros store.
  - simpl. destruct (store !! n) as [b|]; simpl; [rewrite orb_false_r|]; reflexivity.
  - rewrite set_bits_cons, IH. unfold hit. cbn [existsb].
    destruct (Nat.eqb_spec (Z.to_nat idx) n) as [<-|Hne].
    + destruct (store !! Z.to_nat idx) as [b|] eqn:Hb.
      * rewrite list_lookup_insert_eq by (eapply lookup_lt_Some; exact Hb).
        simpl. rewrite orb_true_r. reflexivity.
      * rewrite list_insert_ge by (apply lookup_ge_None; exact Hb).
        rewrite Hb. reflexivity.
    + rewrite list_lookup_insert_ne by exact Hne. reflexivity.
Qed.

Lemma set_bits_ext (idxs1 idxs2 : list Z) (store : list bool) :
  (forall n : nat, hit idxs1 n = hit idxs2 n) ->
  set_bits idxs1 store = set_bits idxs2 store.
Proof.
  intros Hhit. apply list_eq. intros n.
  rewrite !set_bits_lookup_exact, Hhit. reflexivity.
Qed.

Lemma hit_true (idxs : list Z) (n : nat) :
  hit idxs n = true <-> exists idx : Z, idx ∈ idxs /\ Z.to_nat idx = n.
Proof.
  unfold hit. rewrite existsb_exists. split.
  - intros (idx & Hin & Heq). exists idx. split; [apply list_elem_of_In; exact Hin|].
    apply Nat.eqb_eq. exact Heq.
  - intros (idx & Hin & Heq). exists idx. split; [apply list_elem_of_In; exact Hin|].
    apply Nat.eqb_eq. exact Heq.
Qed.

Lemma hit_same_elements (idxs1 idxs2 : list Z) (n : nat) :
  (forall idx : Z, idx ∈ idxs1 <-> idx ∈ idxs2) -> hit idxs1 n = hit idxs2 n.
Proof.
  intros Hsame. apply eq_true_iff_eq. rewrite !hit_true.
  split; intros (idx & Hin & Heq); exists idx; (split; [apply Hsame; exact Hin|exact Heq]).
Qed.

Lemma set_bits_replicate (idxs : list Z) (len n : nat) :
  set_bits idxs (replicate len false) !! n = Some true <->
  (n < len)%nat /\ hit idxs n = true.
Proof.
  rewrite set_bits_lookup_exact. destruct (decide (n < len)%nat) as [Hlt|Hge].
  - rewrite lookup_replicate_2 by exact Hlt. simpl. split.
    + intros [= Hh]. auto.
    + intros [_ ->]. reflexivity.
  - rewrite (proj1 (lookup_replicate_None len false n)) by lia.
    simpl. split; [discriminate|]. intros [? _]. lia.
Qed.

Section CoreFacts.
Context {H : Type} `{Hash128Laws H}.

(** The filter after a run: the bits of the added keys are set, in call order. *)
Lemma run_store (size : Z) (cs : list call) (bf bf' : BloomFilter H) :
  1 <= size <= int32_max -> inv size bf ->
  run cs bf = Ok (tt, bf') ->
  bf' = {| Store := set_bits (added_indices size cs) (Store bf);
           Size := Size bf; mHashers := mHashers bf |}.
Proof.
  intros Hs. revert bf. induction cs as [|c cs IH]; intros bf Hinv Hrun.
  - injection Hrun as <-. destruct bf; reflexivity.
  - rewrite run_cons in Hrun.
    destruct (exec c bf) as [[[] bf1]|p] eqn:Hc; [|discriminate].
    assert (Hinv1 : inv size bf1)
      by (apply (exec_Ok size c bf bf1); [lia|exact Hinv|exact Hc]).
    rewrite (exec_inv size c bf) in Hc by (try lia; exact Hinv).
    rewrite (IH bf1 Hinv1 Hrun).
    destruct c as [key|key| |key i]; cbn [exec_spec] in Hc.
    + destruct (Z.eqb_spec size 0); [lia|].
      assert (Hbf1 : bf1 = {| Store := set_bits (indices size key) (Store bf);
                              Size := Size bf; mHashers := mHashers bf |})
        by congruence.
      rewrite Hbf1. cbn [Store Size mHashers].
      change (added_indices size (CallAdd key :: cs))
        with (indices size key ++ added_indices size cs).
      rewrite set_bits_app. reflexivity.
    + destruct (size =? 0); [discriminate|].
      assert (bf1 = bf) by congruence. subst bf1. reflexivity.
    + assert (bf1 = bf) by congruence. subst bf1. reflexivity.
    + destruct ((0 <=? i) && (i <? 8)); [|discriminate].
      assert (bf1 = bf) by congruence. subst bf1. reflexivity.
Qed.

Lemma hashes_to_indices (size : Z) (bf : BloomFilter H) (key : string) (idx : Z) :
  1 <= size <= int32_max -> inv size bf ->
  hashes_to bf key idx <-> idx ∈ indices size key.
Proof.
  intros Hs Hinv. pose proof Hinv as (HS & _). split.
  - intros (i & d & Hi & Hd & ->).
    destruct (hash_at size key i bf Hs Hinv Hi) as (d' & Hd' & Hl & _).
    assert (d' = d) by congruence. subst d'.
    rewrite HS, uint64_of_int32_nonneg by lia.
    apply list_elem_of_lookup. eauto.
  - intros (n & Hn)%list_elem_of_lookup.
    pose proof (lookup_lt_Some _ _ _ Hn) as Hlt.
    unfold indices in Hlt. rewrite length_fmap in Hlt. simpl in Hlt.
    destruct (hash_at size key (Z.of_nat n) bf Hs Hinv) as (d & Hd & Hl & _); [lia|].
    rewrite Nat2Z.id in Hl. exists (Z.of_nat n), d.
    split; [lia|]. split; [exact Hd|].
    rewrite HS, uint64_of_int32_nonneg by lia. congruence.
Qed.


Lemma elem_of_added (cs : list call) (key : string) :
  key ∈ added cs <-> CallAdd key ∈ cs.
Proof.
  unfold added. rewrite list_elem_of_omap. split.
  - intros (c & Hin & Hc). destruct c; try discriminate. congruence.
  - intros Hin. exists (CallAdd key). split; [exact Hin|reflexivity].
Qed.

Lemma added_fmap_CallAdd (keys : list string) : added (CallAdd <$> keys) = keys.
Proof. induction keys as [|k keys IH]; [reflexivity|]. cbn. f_equal. exact IH. Qed.

Lemma elem_of_added_indices (size : Z) (cs : list call) (idx : Z) :
  idx ∈ added_indices size cs <->
  exists key : string, CallAdd key ∈ cs /\ idx ∈ indices size key.
Proof.
  unfold added_indices. rewrite list_elem_of_join. split.
  - intros (l & Hidx & (key & -> & Hk)%list_elem_of_fmap).
    exists key. split; [apply elem_of_added; exact Hk|exact Hidx].
  - intros (key & Hk & Hidx). exists (indices size key). split; [exact Hidx|].
    apply list_elem_of_fmap. exists key. split; [reflexivity|].
    apply elem_of_added. exact Hk.
Qed.

Lemma indices_range (size : Z) (key : string) (idx : Z) :
  1 <= size <= int32_max -> idx ∈ indices size key -> 0 <= idx < size.
Proof.
  intros Hs (seed & -> & _)%list_elem_of_fmap. apply bit_index_range. exact Hs.
Qed.

Lemma length_indices (size : Z) (key : string) : length (indices size key) = 8%nat.
Proof. reflexivity. Qed.

(** On a filter built by [NewBloomFilter] and driven through [cs], a bit
    is set exactly if it is an index of some added key. *)
Lemma store_after_run (size : Z) (cs : list call) (bf0 bf : BloomFilter H) (idx : Z) :
  1 <= size <= int32_max ->
  NewBloomFilter size = Ok bf0 ->
  run cs bf0 = Ok (tt, bf) ->
  0 <= idx ->
  Store bf !! Z.to_nat idx = Some true <->
  exists key : string, CallAdd key ∈ cs /\ idx ∈ indices size key.
Proof.
  intros Hs Hnew Hrun Hidx.
  destruct (inv_New (H := H) size) as (bf0' & Hnew' & Hinv0 & Hst); [lia|].
  assert (bf0' = bf0) by congruence. subst bf0'.
  rewrite (run_store size cs bf0 bf Hs Hinv0 Hrun). cbn [Store].
  rewrite Hst, set_bits_replicate, hit_true. split.
  - intros (Hlt & idx' & Hin & Heq).
    apply elem_of_added_indices in Hin as (key & Hk & Hin).
    pose proof (indices_range size key idx' Hs Hin).
    assert (idx' = idx) by lia. subst idx'. eauto.
  - intros (key & Hk & Hin). pose proof (indices_range size key idx Hs Hin).
    split; [lia|]. exists idx. split; [|reflexivity].
    apply elem_of_added_indices. eauto.
Qed.

Lemma set_bits_covered (idxs : list Z) (store : list bool) :
  (forall idx : Z, idx ∈ idxs -> bit store idx = true) ->
  set_bits idxs store = store.
Proof.
  induction idxs as [|idx idxs IH]; intros Hall; [reflexivity|].
  rewrite set_bits_cons.
  assert (Hb : store !! Z.to_nat idx = Some true).
  { specialize (Hall idx (list_elem_of_here _ _)). unfold bit in Hall.
    destruct (store !! Z.to_nat idx) as [[|]|]; congruence. }
  rewrite (list_insert_id _ _ _ Hb). apply IH.
  intros j Hj. apply Hall. right. exact Hj.
Qed.

Lemma covered_elem (size : Z) (key : string) (bf : BloomFilter H) :
  covered size key bf <->
  forall idx : Z, idx ∈ indices size key -> bit (Store bf) idx = true.
Proof.
  unfold covered. rewrite forallb_forall. split.
  - intros Hall idx Hin. apply Hall, list_elem_of_In, Hin.
  - intros Hall idx Hin. apply Hall, list_elem_of_In, Hin.
Qed.

(** [Exists] answers [true] exactly on the covered keys. *)
Lemma Exists_covered (size : Z) (key : string) (bf : BloomFilter H) :
  1 <= size <= int32_max -> inv size bf ->
  exists (idx : Z) (b : bool),
    Exists key bf = Ok ((idx, b), bf) /\
    (b = true -> idx = 0) /\
    (b = true <-> covered size key bf).
Proof.
  intros Hs Hinv. rewrite (Exists_inv size key bf Hs Hinv). unfold covered.
  destruct (first_unset (Store bf) (indices size key)) as [idx|] eqn:Hfu.
  - exists idx, false. split; [reflexivity|]. split; [discriminate|].
    split; [discriminate|]. intros Hc. apply first_unset_None in Hc. congruence.
  - exists 0, true. split; [reflexivity|]. split; [reflexivity|].
    split; [|reflexivity]. intros _. apply first_unset_None. exact Hfu.
Qed.

End CoreFacts.

Lemma popcount_insert (store : list bool) (n : nat) :
  (popcount (<[n := true]> store) <= S (popcount store))%nat.
Proof.
  unfold popcount. revert n. induction store as [|b store IH]; intros n.
  - simpl. lia.
  - destruct n as [|n]; simpl; rewrite !filter_cons.
    + destruct (decide (true = true)); [|congruence].
      destruct (decide (b = true)); simpl; lia.
    + specialize (IH n). destruct (decide (b = true)); simpl; lia.
Qed.

Lemma popcount_set_bits (idxs : list Z) (store : list bool) :
  (popcount (set_bits idxs store) <= popcount store + length idxs)%nat.
Proof.
  revert store. induction idxs as [|idx idxs IH]; intros store.
  - simpl. lia.
  - rewrite set_bits_cons. specialize (IH (<[Z.to_nat idx := true]> store)).
    pose proof (popcount_insert store (Z.to_nat idx)). simpl. lia.
Qed.

Lemma popcount_replicate_false (n : nat) : popcount (replicate n false) = 0%nat.
Proof.
  unfold popcount. induction n as [|n IH]; [reflexivity|].
  simpl. rewrite filter_cons_False by discriminate. exact IH.
Qed.

Lemma length_added_indices {H : Type} `{Hash128 H} (size : Z) (cs : list call) :
  length (added_indices size cs) = (8 * length (added cs))%nat.
Proof.
  unfold added_indices. induction (added cs) as [|k ks IH]; [reflexivity|].
  change (mjoin (indices size <$> k :: ks))
    with (indices size k ++ mjoin (indices size <$> ks)).
  rewrite length_app, IH, length_indices. simpl length. lia.
Qed.

Section CoreExtras.
Context {H : Type} `{Hash128Laws H}.

(** X1 -- The configuration of a filter never changes.  Whatever calls a
    filter built by [NewBloomFilter size] ([size >= 0]) has gone through,
    its [Size] is [size], its [Store] has [size] entries, its bank is the
    bank it was built with, and [Info] reports size [size] and 8 hash
    functions. *)
Theorem X1_configuration_fixed (size : Z) (cs : list call) (bf0 bf : BloomFilter H) :
  0 <= size <= int32_max ->
  NewBloomFilter size = Ok bf0 ->
  run cs bf0 = Ok (tt, bf) ->
  Size bf = size /\
  Z.of_nat (length (Store bf)) = size /\
  mHashers bf = mHashers bf0 /\
  Info bf = Info bf0 /\
  Info bf = {[ "size" := any_int32 size; "totalHashFuncs" := any_int 8 ]}.
Proof.
  intros Hs Hnew Hrun.
  destruct (inv_New (H := H) size) as (bf0' & Hnew' & Hinv0 & _); [lia|].
  assert (bf0' = bf0) by congruence. subst bf0'.
  destruct (run_Ok size cs bf0 bf Hs Hinv0 Hrun) as ((HS & HL & HB) & _).
  destruct Hinv0 as (HS0 & HL0 & HB0).
  split; [exact HS|]. split; [lia|]. split; [congruence|].
  unfold Info. rewrite HS, HS0, HB, HB0. split; reflexivity.
Qed.

(** X2 -- A filter nothing was added to rejects every key.  On a filter
    built with [size >= 1] and driven only through calls other than [Add],
    [Exists key] returns [false] for every key, with the index of the
    first hash function. *)
Theorem X2_nothing_added_all_rejected (size : Z) (cs : list call)
        (bf0 bf : BloomFilter H) (key : string) :
  1 <= size <= int32_max ->
  NewBloomFilter size = Ok bf0 ->
  run cs bf0 = Ok (tt, bf) ->
  (forall k : string, CallAdd k ∉ cs) ->
  exists d : Z,
    ComputeMurmurHash key 0 bf = Ok (d, bf) /\
    Exists key bf = Ok ((d mod size, false), bf).
Proof.
  intros Hs Hnew Hrun Hno.
  destruct (inv_New (H := H) size) as (bf0' & Hnew' & Hinv0 & Hst); [lia|].
  assert (bf0' = bf0) by congruence. subst bf0'.
  destruct (run_Ok size cs bf0 bf) as (_ & _ & _ & Hsame);
    [lia|exact Hinv0|exact Hrun|].
  rewrite (Hsame Hno).
  destruct (hash_at size key 0 bf0 Hs Hinv0) as (d & Hd & Hl & Hr); [lia|].
  exists d. split; [exact Hd|].
  rewrite (Exists_inv size key bf0 Hs Hinv0).
  unfold indices in *. cbn [seeds fmap list_fmap first_unset] in *.
  injection Hl as Hl. rewrite Hl. unfold bit. rewrite Hst.
  rewrite lookup_replicate_2 by lia. reflexivity.
Qed.

(** X3 -- Only the indices of added keys are ever set.  On a filter built
    with [size >= 1] and driven through [cs], the bit at [idx] is set
    exactly if some key added in [cs] hashes to [idx]. *)
Theorem X3_set_bits_are_hashes_of_added_keys (size : Z) (cs : list call)
        (bf0 bf : BloomFilter H) (idx : Z) :
  1 <= size <= int32_max ->
  NewBloomFilter size = Ok bf0 ->
  run cs bf0 = Ok (tt, bf) ->
  0 <= idx ->
  Store bf !! Z.to_nat idx = Some true <->
  exists key : string, CallAdd key ∈ cs /\ hashes_to bf key idx.
Proof.
  intros Hs Hnew Hrun Hidx.
  assert (Hinv : inv size bf).
  { apply reachable_inv; [lia|]. exists bf0, cs. auto. }
  rewrite (store_after_run size cs bf0 bf idx Hs Hnew Hrun Hidx).
  split; intros (key & Hk & Hin); exists key; (split; [exact Hk|]);
    apply (hashes_to_indices size bf key idx Hs Hinv); exact Hin.
Qed.

(** X4 -- When a key tests positive.  On a filter built with [size >= 1]
    and driven through [cs], [Exists key] returns [true] exactly if every
    index [key] hashes to is also an index some added key hashes to. *)
Theorem X4_Exists_true_iff_indices_collide (size : Z) (cs : list call)
        (bf0 bf : BloomFilter H) (key : string) :
  1 <= size <= int32_max ->
  NewBloomFilter size = Ok bf0 ->
  run cs bf0 = Ok (tt, bf) ->
  exists (idx : Z) (b : bool),
    Exists key bf = Ok ((idx, b), bf) /\
    (b = true <->
     forall j : Z, hashes_to bf key j ->
       exists key' : string, CallAdd key' ∈ cs /\ hashes_to bf key' j).
Proof.
  intros Hs Hnew Hrun.
  assert (Hinv : inv size bf).
  { apply reachable_inv; [lia|]. exists bf0, cs. auto. }
  pose proof Hinv as (HS & HL & HB).
  destruct (Exists_covered size key bf Hs Hinv) as (idx & b & Hex & _ & Hb).
  exists idx, b. split; [exact Hex|]. rewrite Hb, covered_elem. split.
  - intros Hall j Hj. apply (hashes_to_indices size bf key j Hs Hinv) in Hj.
    pose proof (indices_range size key j Hs Hj) as Hr.
    specialize (Hall j Hj). apply (bit_in_store (Store bf) j true) in Hall; [|lia].
    apply (store_after_run size cs bf0 bf j Hs Hnew Hrun) in Hall as (key' & Hk & Hin); [|lia].
    exists key'. split; [exact Hk|].
    apply (hashes_to_indices size bf key' j Hs Hinv). exact Hin.
  - intros Hall j Hj. pose proof (indices_range size key j Hs Hj) as Hr.
    apply (hashes_to_indices size bf key j Hs Hinv) in Hj.
    destruct (Hall j Hj) as (key' & Hk & Hin).
    apply (hashes_to_indices size bf key' j Hs Hinv) in Hin.
    assert (Hset : Store bf !! Z.to_nat j = Some true).
    { apply (store_after_run size cs bf0 bf j Hs Hnew Hrun); [lia|]. eauto. }
    unfold bit. rewrite Hset. reflexivity.
Qed.

(** X5 -- Adding a key that already tests positive changes nothing; in
    particular adding a key a second time changes nothing. *)
Theorem X5_Add_of_positive_key_is_noop (size : Z) (bf : BloomFilter H) (key : string) :
  1 <= size <= int32_max ->
  reachable size bf ->
  (Exists key bf = Ok ((0, true), bf) -> Add key bf = Ok (tt, bf)) /\
  (let* _ := Add key in Add key) bf = Add key bf.
Proof.
  intros Hs Hreach.
  assert (Hinv : inv size bf) by (apply reachable_inv; [lia|exact Hreach]).
  assert (Hnoop : forall bf1 : BloomFilter H,
             inv size bf1 -> covered size key bf1 -> Add key bf1 = Ok (tt, bf1)).
  { intros bf1 Hinv1 Hc. rewrite (Add_inv size key bf1 Hs Hinv1).
    rewrite set_bits_covered by (apply covered_elem; exact Hc).
    destruct bf1; reflexivity. }
  split.
  - intros Hex. apply Hnoop; [exact Hinv|].
    destruct (Exists_covered size key bf Hs Hinv) as (idx & b & Hex' & _ & Hb).
    apply Hb. congruence.
  - unfold bind. destruct (exec_total size (CallAdd key) bf Hs Hinv I) as [bf1 Hadd].
    cbn [exec] in Hadd. rewrite Hadd.
    destruct (exec_Ok size (CallAdd key) bf bf1) as (Hinv1 & _ & Hcov & _);
      [lia|exact Hinv|exact Hadd|].
    apply Hnoop; [exact Hinv1|]. apply Hcov. reflexivity.
Qed.

Lemma adds_same_elements (size : Z) (bf : BloomFilter H) (keys1 keys2 : list string) :
  1 <= size <= int32_max ->
  inv size bf ->
  (forall k : string, k ∈ keys1 <-> k ∈ keys2) ->
  exists bf' : BloomFilter H,
    run (CallAdd <$> keys1) bf = Ok (tt, bf') /\
    run (CallAdd <$> keys2) bf = Ok (tt, bf').
Proof.
  intros Hs Hinv Hsame.
  assert (Hok : forall keys : list string, Forall call_in_range (CallAdd <$> keys)).
  { intros keys. apply Forall_fmap, Forall_forall. intros; exact I. }
  destruct (run_total size _ bf Hs Hinv (Hok keys1)) as [bf1 Hrun1].
  destruct (run_total size _ bf Hs Hinv (Hok keys2)) as [bf2 Hrun2].
  exists bf1. split; [exact Hrun1|]. rewrite Hrun2.
  rewrite (run_store size _ bf bf1 Hs Hinv Hrun1).
  rewrite (run_store size _ bf bf2 Hs Hinv Hrun2).
  do 3 f_equal. apply set_bits_ext. intros n. apply hit_same_elements.
  intros idx. rewrite !elem_of_added_indices.
  split; intros (key & Hk & Hin); exists key; (split; [|exact Hin]);
    apply elem_of_added; apply elem_of_added in Hk;
    rewrite added_fmap_CallAdd in *; apply Hsame; exact Hk.
Qed.

(** X6 -- The filter depends on the set of keys added, not on their order
    or multiplicity: two lists with the same elements, added to the same
    filter, give the same filter. *)
Theorem X6_Add_order_irrelevant (size : Z) (bf : BloomFilter H) (keys1 keys2 : list string) :
  1 <= size <= int32_max ->
  reachable size bf ->
  (forall k : string, k ∈ keys1 <-> k ∈ keys2) ->
  exists bf' : BloomFilter H,
    run (CallAdd <$> keys1) bf = Ok (tt, bf') /\
    run (CallAdd <$> keys2) bf = Ok (tt, bf').
Proof.
  intros Hs Hreach Hsame. apply (adds_same_elements size); [exact Hs| |exact Hsame].
  apply reachable_inv; [lia|exact Hreach].
Qed.

(** X7 -- Bounds of the hash index.  On every filter a program can hold,
    [ComputeMurmurHash key i] returns for [0 <= i < 8] and panics with an
    index out of range for every other [i], negative ones included. *)
Theorem X7_ComputeMurmurHash_index_bounds (size : Z) (bf : BloomFilter H)
        (key : string) (i : Z) :
  0 <= size <= int32_max ->
  reachable size bf ->
  (0 <= i < 8 -> exists d : Z, ComputeMurmurHash key i bf = Ok (d, bf)) /\
  (~ (0 <= i < 8) -> ComputeMurmurHash key i bf = Panic PanicIndexOutOfRange).
Proof.
  intros Hs Hreach. pose proof (reachable_inv size bf Hs Hreach) as Hinv. split.
  - intros Hi. destruct (ComputeMurmurHash_inv size key i bf Hinv Hi) as (s & _ & E).
    eauto.
  - intros Hi. apply ComputeMurmurHash_out_of_range.
    rewrite (len_bank size bf Hinv). lia.
Qed.

(** X8 -- How full the filter can be.  On a filter built with [size >= 1]
    and driven through [cs], the number of set bits is at most 8 times the
    number of [Add] calls, and at most [size]. *)
Theorem X8_popcount_bound (size : Z) (cs : list call) (bf0 bf : BloomFilter H) :
  1 <= size <= int32_max ->
  NewBloomFilter size = Ok bf0 ->
  run cs bf0 = Ok (tt, bf) ->
  Z.of_nat (popcount (Store bf)) <= 8 * Z.of_nat (length (added cs)) /\
  Z.of_nat (popcount (Store bf)) <= size.
Proof.
  intros Hs Hnew Hrun.
  destruct (inv_New (H := H) size) as (bf0' & Hnew' & Hinv0 & Hst); [lia|].
  assert (bf0' = bf0) by congruence. subst bf0'.
  destruct (run_Ok size cs bf0 bf) as ((_ & HL & _) & _);
    [lia|exact Hinv0|exact Hrun|].
  split.
  - rewrite (run_store size cs bf0 bf Hs Hinv0 Hrun). cbn [Store].
    pose proof (popcount_set_bits (added_indices size cs) (Store bf0)) as Hp.
    rewrite Hst in *. rewrite popcount_replicate_false, length_added_indices in Hp. lia.
  - pose proof (length_filter (fun b => b = true) (Store bf)) as Hf.
    unfold popcount. lia.
Qed.

(** X9 -- A positive answer is stable.  Once [Exists key] has returned
    [true] on a filter, it returns [true] after any further calls, whether
    or not [key] was ever added. *)
Theorem X9_positive_stays_positive (size : Z) (bf : BloomFilter H)
        (cs : list call) (key : string) :
  1 <= size <= int32_max ->
  reachable size bf ->
  Exists key bf = Ok ((0, true), bf) ->
  Forall call_in_range cs ->
  exists bf' : BloomFilter H,
    run cs bf = Ok (tt, bf') /\ Exists key bf' = Ok ((0, true), bf').
Proof.
  intros Hs Hreach Hex Hcs.
  assert (Hinv : inv size bf) by (apply reachable_inv; [lia|exact Hreach]).
  destruct (run_total size cs bf Hs Hinv Hcs) as [bf' Hrun].
  exists bf'. split; [exact Hrun|].
  destruct (run_Ok size cs bf bf') as (Hinv' & Hle & _);
    [lia|exact Hinv|exact Hrun|].
  destruct (Exists_covered size key bf Hs Hinv) as (idx & b & Hex1 & _ & Hb).
  assert (b = true) by congruence. subst b.
  destruct (Exists_covered size key bf' Hs Hinv') as (idx' & b' & Hex' & Hzero & Hb').
  assert (b' = true).
  { apply Hb'. apply (covered_mono size key bf bf' Hle). apply Hb. reflexivity. }
  subst b'. rewrite (Hzero eq_refl) in Hex'. exact Hex'.
Qed.

End CoreExtras.

(** ** Trials *)

Section TrialFacts.
Context {H : Type} `{Hash128Laws H}.

Lemma PerformTests_insert_run (order : list string) (bf : BloomFilter H) :
  PerformTests_insert order bf = run (CallAdd <$> order) bf.
Proof.
  revert bf. induction order as [|key order IH]; intros bf; [reflexivity|].
  cbn [PerformTests_insert fmap list_fmap]. rewrite run_cons. cbn [exec].
  unfold bind. destruct (Add key bf) as [[[] bf1]|p]; [apply IH|reflexivity].
Qed.

Lemma PerformTests_query_inv (size : Z) (train test : gmap string bool)
      (todo : list string) (tp fp : Z) (bf : BloomFilter H) :
  1 <= size <= int32_max -> inv size bf ->
  PerformTests_query train test todo tp fp bf =
    Ok ((tp + Z.of_nat (length (List.filter
                 (fun key => tests_positive size bf key && has_key train key) todo)),
         fp + Z.of_nat (length (List.filter
                 (fun key => tests_positive size bf key && has_key test key) todo))),
        bf).
Proof.
  intros Hs Hinv. revert tp fp. induction todo as [|key todo IH]; intros tp fp.
  - cbn. rewrite !Z.add_0_r. reflexivity.
  - cbn [PerformTests_query List.filter]. unfold bind at 1.
    rewrite (Exists_inv size key bf Hs Hinv).
    destruct (first_unset (Store bf) (indices size key)) as [idx|] eqn:Hfu; cbn [snd].
    + assert (Hb : tests_positive size bf key = false).
      { unfold tests_positive.
        destruct (forallb (bit (Store bf)) (indices size key)) eqn:E; [|reflexivity].
        apply first_unset_None in E. congruence. }
      rewrite Hb. cbn [andb]. apply IH.
    + assert (Hb : tests_positive size bf key = true)
        by (apply first_unset_None; exact Hfu).
      rewrite Hb. cbn [andb]. rewrite IH.
      destruct (has_key train key); destruct (has_key test key); cbn [length];
        do 3 f_equal; lia.
Qed.

End TrialFacts.

Lemma int32_of_int_range (x : Z) : int32_min <= int32_of_int x <= int32_max.
Proof.
  unfold int32_of_int, int32_min, int32_max.
  pose proof (Z.mod_pos_bound (x + 2 ^ 31) (2 ^ 32) ltac:(lia)). lia.
Qed.

Lemma int32_of_int_wrap (x k : Z) : int32_of_int (x + 2 ^ 32 * k) = int32_of_int x.
Proof.
  unfold int32_of_int. f_equal.
  replace (x + 2 ^ 32 * k + 2 ^ 31) with (x + 2 ^ 31 + k * 2 ^ 32) by lia.
  apply Z.mod_add. lia.
Qed.

Lemma length_filter_le {A : Type} (f g : A -> bool) (l : list A) :
  (forall x : A, f x = true -> g x = true) ->
  (length (List.filter f l) <= length (List.filter g l))%nat.
Proof.
  intros Himp. induction l as [|x l IH]; [reflexivity|]. simpl.
  destruct (f x) eqn:Hf.
  - rewrite (Himp x Hf). simpl. lia.
  - destruct (g x); simpl; lia.
Qed.

Section TrialFacts2.
Context {H : Type} `{Hash128Laws H}.

(** The counters and the filter at the end of a trial of size [>= 1]. *)
Lemma PerformTests_counts_inv (bloomSize : Z) (dataset : list string)
      (train test : gmap string bool) (order : list string) :
  1 <= int32_of_int bloomSize ->
  exists bloom : BloomFilter H,
    inv (int32_of_int bloomSize) bloom /\
    (forall key : string, key ∈ order -> tests_positive (int32_of_int bloomSize) bloom key = true) /\
    PerformTests_counts bloomSize dataset train test order =
      Ok ((Z.of_nat (length (List.filter
             (fun key => tests_positive (int32_of_int bloomSize) bloom key
                         && has_key train key) dataset)),
           Z.of_nat (length (List.filter
             (fun key => tests_positive (int32_of_int bloomSize) bloom key
                         && has_key test key) dataset))),
          bloom).
Proof.
  intros Hpos. set (size := int32_of_int bloomSize) in *.
  pose proof (int32_of_int_range bloomSize) as Hr. fold size in Hr.
  assert (Hs : 1 <= size <= int32_max) by lia.
  destruct (inv_New (H := H) size) as (bf0 & Hnew & Hinv0 & _); [lia|].
  assert (Hok : Forall call_in_range (CallAdd <$> order)).
  { apply Forall_fmap, Forall_forall. intros; exact I. }
  destruct (run_total size _ bf0 Hs Hinv0 Hok) as [bloom Hrun].
  destruct (run_Ok size (CallAdd <$> order) bf0 bloom) as (Hinv & _ & Hcov & _);
    [lia|exact Hinv0|exact Hrun|].
  exists bloom. split; [exact Hinv|]. split.
  - intros key Hk. apply Hcov, list_elem_of_fmap. eauto.
  - unfold PerformTests_counts, PerformTests_bloom. fold size. rewrite Hnew.
    unfold bind. rewrite PerformTests_insert_run, Hrun.
    rewrite (PerformTests_query_inv size train test dataset 0 0 bloom Hs Hinv).
    reflexivity.
Qed.

End TrialFacts2.

Lemma has_key_true (m : gmap string bool) (key : string) :
  has_key m key = true <-> is_Some (m !! key).
Proof.
  unfold has_key. destruct (m !! key) as [b|]; split; try discriminate; eauto.
  intros [b Hb]. discriminate.
Qed.

Section TrialExtras.
Context {H : Type} `{Hash128Laws H} {F : Type} `{Float64 F}.

(** The outcome of a trial of size at least 1. *)
Lemma PerformTests_record_inv (bloomSize : Z) (dataset : list string)
        (train test : gmap string bool) (order : list string) :
  1 <= int32_of_int bloomSize ->
  (forall key : string, key ∈ order <-> is_Some (train !! key)) ->
  exists (truePositives fp : Z) (bloom : BloomFilter H),
    PerformTests_counts bloomSize dataset train test order =
      Ok ((truePositives, fp), bloom) /\
    truePositives = count_keys train dataset /\
    0 <= fp <= count_keys test dataset /\
    PerformTests (F := F) bloomSize dataset train test order =
      Ok {| bloomInfo := {[ "size" := any_int32 (int32_of_int bloomSize);
                            "totalHashFuncs" := any_int 8 ]};
            falsePositives := fp;
            percentageFalsePositives :=
              float64_div
                (float64_mul (float64_of_int 100) (float64_of_int fp))
                (float64_of_int (Z.of_nat (length dataset))) |}.
Proof.
  intros Hpos Horder.
  destruct (PerformTests_counts_inv bloomSize dataset train test order Hpos)
    as (bloom & Hinv & Hall & Hcounts).
  eexists _, _, bloom. split; [exact Hcounts|]. split; [|split].
  - unfold count_keys. f_equal. f_equal. apply List.filter_ext_in.
    intros key _. destruct (has_key train key) eqn:Hk.
    + rewrite Hall; [reflexivity|]. apply Horder, has_key_true. exact Hk.
    + apply andb_false_r.
  - split; [lia|]. unfold count_keys. apply inj_le, length_filter_le.
    intros key Hk. apply andb_true_iff in Hk. apply Hk.
  - unfold PerformTests. rewrite Hcounts. destruct Hinv as (HS & _ & HB).
    unfold Info. rewrite HS, HB. reflexivity.
Qed.

(** X10 -- What a trial counts.  For a size that is at least 1 after the
    conversion to [int32], and when the range over the train map visits
    exactly its keys, the trial returns: [truePositives] is the number of
    dataset entries that are train keys (none is missed), and
    [falsePositives] is at most the number of dataset entries that are
    test keys; the record sent carries that [falsePositives], the info of
    the filter and the quotient of [100 * falsePositives] by the length of
    the dataset. *)
Theorem X10_PerformTests_counts (bloomSize : Z) (dataset : list string)
        (train test : gmap string bool) (order : list string) :
  1 <= int32_of_int bloomSize ->
  (forall key : string, key ∈ order <-> is_Some (train !! key)) ->
  exists (truePositives fp : Z) (bloom : BloomFilter H),
    PerformTests_counts bloomSize dataset train test order =
      Ok ((truePositives, fp), bloom) /\
    truePositives = count_keys train dataset /\
    0 <= fp <= count_keys test dataset /\
    PerformTests (F := F) bloomSize dataset train test order =
      Ok {| bloomInfo := {[ "size" := any_int32 (int32_of_int bloomSize);
                            "totalHashFuncs" := any_int 8 ]};
            falsePositives := fp;
            percentageFalsePositives :=
              float64_div
                (float64_mul (float64_of_int 100) (float64_of_int fp))
                (float64_of_int (Z.of_nat (length dataset))) |}.
Proof.
  intros Hpos Horder.
  exact (PerformTests_record_inv bloomSize dataset train test order Hpos Horder).
Qed.

(** X11 -- A trial does not depend on the order in which Go ranges over
    the train map: two visiting orders with the same keys give the same
    outcome, record or panic, for every [bloomSize]. *)
Theorem X11_PerformTests_order_irrelevant (bloomSize : Z) (dataset : list string)
        (train test : gmap string bool) (order1 order2 : list string) :
  (forall key : string, key ∈ order1 <-> key ∈ order2) ->
  PerformTests (F := F) bloomSize dataset train test order1 =
  PerformTests (F := F) bloomSize dataset train test order2.
Proof.
  intros Hsame. unfold PerformTests. f_equal.
  unfold PerformTests_counts, PerformTests_bloom.
  set (size := int32_of_int bloomSize).
  pose proof (int32_of_int_range bloomSize) as Hr. fold size in Hr.
  destruct (Z.ltb_spec size 0) as [Hneg|Hnn].
  - unfold NewBloomFilter. destruct (Z.ltb_spec size 0); [reflexivity|lia].
  - destruct (inv_New (H := H) size) as (bf0 & Hnew & Hinv0 & _); [lia|].
    rewrite Hnew. unfold bind. rewrite !PerformTests_insert_run.
    destruct (Z.eq_dec size 0) as [Hz|Hnz].
    + rewrite Hz in Hinv0.
      destruct order1 as [|k1 o1]; destruct order2 as [|k2 o2].
      * reflexivity.
      * exfalso. apply (not_elem_of_nil k2), Hsame. left.
      * exfalso. apply (not_elem_of_nil k1), Hsame. left.
      * cbn [fmap list_fmap]. rewrite !run_cons. cbn [exec].
        rewrite !(Add_zero _ bf0 Hinv0). reflexivity.
    + destruct (adds_same_elements size bf0 order1 order2) as (bf' & -> & ->);
        [lia|exact Hinv0|exact Hsame|reflexivity].
Qed.

(** X12 -- The size of a trial is converted to [int32] unchecked.  A
    [bloomSize] and the same plus a multiple of [2^32] give the same
    trial; when the converted size is negative the trial panics in the
    allocation; when it is 0 the trial panics with a division by zero as
    soon as there is a key to insert or to query. *)
Theorem X12_PerformTests_size_conversion (bloomSize : Z) (dataset : list string)
        (train test : gmap string bool) (order : list string) :
  (forall k : Z,
     PerformTests (F := F) (bloomSize + 2 ^ 32 * k) dataset train test order =
     PerformTests (F := F) bloomSize dataset train test order) /\
  (int32_of_int bloomSize < 0 ->
   PerformTests (F := F) bloomSize dataset train test order =
     Panic PanicMakesliceLen) /\
  (int32_of_int bloomSize = 0 ->
   order <> [] \/ dataset <> [] ->
   PerformTests (F := F) bloomSize dataset train test order =
     Panic PanicDivideByZero).
Proof.
  split; [|split].
  - intros k. unfold PerformTests, PerformTests_counts, PerformTests_bloom.
    rewrite int32_of_int_wrap. reflexivity.
  - intros Hneg. unfold PerformTests, PerformTests_counts, PerformTests_bloom,
      NewBloomFilter.
    destruct (Z.ltb_spec (int32_of_int bloomSize) 0); [reflexivity|lia].
  - intros Hz Hne. unfold PerformTests, PerformTests_counts, PerformTests_bloom.
    rewrite Hz. destruct (inv_New (H := H) 0) as (bf0 & Hnew & Hinv0 & _); [lia|].
    rewrite Hnew. unfold bind at 1.
    destruct order as [|k o].
    + destruct dataset as [|key ds]; [destruct Hne; congruence|].
      cbn [PerformTests_insert PerformTests_query]. unfold ret. unfold bind at 1.
      rewrite (Exists_zero key bf0 Hinv0). reflexivity.
    + cbn [PerformTests_insert]. unfold bind at 1.
      rewrite (Add_zero k bf0 Hinv0). reflexivity.
Qed.

End TrialExtras.

(** ** More on the dataset *)

Lemma seqZ_nonpos (m len : Z) : len <= 0 -> seqZ m len = [].
Proof. intros Hl. unfold seqZ. replace (Z.to_nat len) with 0%nat by lia. reflexivity. Qed.

(** X13 -- Small requests.  For [n <= 1] (zero and negative [n]
    included) neither loop of [generateDataset] runs: the dataset is the
    single empty string and both maps are empty. *)
Theorem X13_generateDataset_small (uuid_New : nat -> string) (n : Z) :
  n <= 1 ->
  generateDataset uuid_New n = ([""], ∅, ∅).
Proof.
  intros Hn. unfold generateDataset.
  assert (Hq : Z.quot n 2 <= 0 /\ n - (Z.quot n 2 + 1) <= 0).
  { destruct (Z.eq_dec n 1) as [->|Hne]; [split; vm_compute; discriminate|].
    pose proof (Z.quot_rem' n 2) as Hqr.
    assert (Hn0 : n <= 0) by lia.
    pose proof (Z.rem_bound_pos_neg n 2 ltac:(lia) Hn0) as Hrem. lia. }
  destruct Hq as [Hq1 Hq2].
  rewrite (seqZ_nonpos 0) by lia. rewrite (seqZ_nonpos (Z.quot n 2 + 1)) by lia.
  reflexivity.
Qed.

Section DatasetMore.
Variable uuid_New : nat -> string.

Lemma train_loop_values (l : list Z) (g : generating) :
  map_Forall (fun _ b => b = true) (trainDataset g) ->
  map_Forall (fun _ b => b = true) (trainDataset (foldl (train_step uuid_New) g l)).
Proof.
  revert g. induction l as [|i l IH]; intros g Hg; simpl; [exact Hg|].
  apply IH. cbn [train_step trainDataset]. apply map_Forall_insert_2; auto.
Qed.

Lemma test_loop_values (l : list Z) (g : generating) :
  map_Forall (fun _ b => b = true) (testDataset g) ->
  map_Forall (fun _ b => b = true) (testDataset (foldl (test_step uuid_New) g l)).
Proof.
  revert g. induction l as [|i l IH]; intros g Hg; simpl; [exact Hg|].
  apply IH. cbn [test_step testDataset]. apply map_Forall_insert_2; auto.
Qed.

(** Every value stored in the two maps is [true]. *)
Lemma generateDataset_values (n : Z) :
  map_Forall (fun _ b => b = true) (snd (fst (generateDataset uuid_New n))) /\
  map_Forall (fun _ b => b = true) (snd (generateDataset uuid_New n)).
Proof.
  unfold generateDataset. cbn [fst snd].
  set (g0 := {| dataset := [""]; trainDataset := ∅; testDataset := ∅; drawn := 0 |}).
  set (l1 := seqZ 0 (Z.quot n 2 - 0)).
  set (l2 := seqZ (Z.quot n 2 + 1) (n - (Z.quot n 2 + 1))).
  destruct (train_loop uuid_New l1 g0) as (_ & _ & He1 & _).
  destruct (test_loop uuid_New l2 (foldl (train_step uuid_New) g0 l1)) as (_ & Ht2 & _ & _).
  cbn zeta in *. split.
  - rewrite Ht2. apply train_loop_values. apply map_Forall_empty.
  - apply test_loop_values. rewrite He1. apply map_Forall_empty.
Qed.

End DatasetMore.

(** The layout of the value of [generateDataset]: a blank, the train
    keys, the test keys. *)
Lemma generateDataset_layout (uuid_New : nat -> string) (n : Z) :
  2 <= n ->
  (forall k : nat, uuid_New k <> "") ->
  NoDup (uuid_New <$> seq 0 (Z.to_nat (n - 1))) ->
  exists (l1 l2 : list string) (train test : gmap string bool),
    generateDataset uuid_New n = ("" :: l1 ++ l2, train, test) /\
    Z.of_nat (length l1) = Z.quot n 2 /\
    Z.of_nat (length l2) = n - Z.quot n 2 - 1 /\
    (forall key : string, is_Some (train !! key) <-> key ∈ l1) /\
    (forall key : string, is_Some (test !! key) <-> key ∈ l2) /\
    ("" ∉ l1 ++ l2) /\
    NoDup (l1 ++ l2).
Proof.
  intros Hn Hne Hnd.
  destruct (half_split n Hn) as (Ha & Hb & Hab).
  destruct (generateDataset_draws uuid_New n) as (train & test & Hgen & Htr & Hte).
  set (a := Z.to_nat (Z.quot n 2)) in *.
  set (b := Z.to_nat (n - (Z.quot n 2 + 1))) in *.
  rewrite <- Hab, seq_app, fmap_app in Hnd. simpl in Hnd.
  fold (draws uuid_New 0 a) in Hnd. fold (draws uuid_New a b) in Hnd.
  exists (draws uuid_New 0 a), (draws uuid_New a b), train, test.
  split; [exact Hgen|].
  split; [rewrite length_draws; unfold a; lia|].
  split; [rewrite length_draws; unfold b; lia|].
  split; [intros key; rewrite <- elem_of_dom, Htr; apply elem_of_list_to_set|].
  split; [intros key; rewrite <- elem_of_dom, Hte; apply elem_of_list_to_set|].
  split; [|exact Hnd].
  intros [Hin|Hin]%elem_of_app; apply elem_of_draws in Hin as [k Hk];
    exact (Hne k (eq_sym Hk)).
Qed.

(** X14 -- The dataset lists the keys of the two maps.  For [n >= 2] and
    non-empty, pairwise distinct identifiers, the dataset has no repeated
    entry; its entry 0 is the empty string, its entries 1 to [n/2] are
    exactly the keys of the train map and the entries after them exactly
    the keys of the test map; every key of either map is in the dataset,
    and every value stored in the maps is [true]. *)
Theorem X14_generateDataset_partition (uuid_New : nat -> string) (n : Z) :
  2 <= n ->
  (forall k : nat, uuid_New k <> "") ->
  NoDup (uuid_New <$> seq 0 (Z.to_nat (n - 1))) ->
  exists (ds : list string) (train test : gmap string bool),
    generateDataset uuid_New n = (ds, train, test) /\
    NoDup ds /\
    (forall (i : nat) (key : string),
       ds !! i = Some key ->
       (i = 0%nat <-> key = "") /\
       (1 <= Z.of_nat i <= Z.quot n 2 <-> is_Some (train !! key)) /\
       (Z.quot n 2 < Z.of_nat i <-> is_Some (test !! key))) /\
    (forall key : string,
       is_Some (train !! key) \/ is_Some (test !! key) -> key ∈ ds) /\
    (forall (key : string) (b : bool),
       train !! key = Some b \/ test !! key = Some b -> b = true).
Proof.
  intros Hn Hne Hnd.
  destruct (generateDataset_layout uuid_New n Hn Hne Hnd)
    as (l1 & l2 & train & test & Hgen & Hl1 & Hl2 & Hin1 & Hin2 & Hblank & Hnd12).
  pose proof (generateDataset_values uuid_New n) as [Hv1 Hv2].
  rewrite Hgen in Hv1, Hv2. cbn [fst snd] in Hv1, Hv2.
  assert (Hds : NoDup ("" :: l1 ++ l2)) by (apply NoDup_cons; auto).
  pose proof Hnd12 as (Hnd1 & Hdisj & Hnd2)%NoDup_app.
  eexists _, train, test. split; [exact Hgen|]. split; [exact Hds|].
  split; [|split].
  - intros i key Hi. destruct i as [|i].
    + injection Hi as <-. split; [tauto|]. split.
      * split; [lia|]. intros Hs. apply Hin1 in Hs. destruct Hblank.
        apply elem_of_app. auto.
      * split; [lia|]. intros Hs. apply Hin2 in Hs. destruct Hblank.
        apply elem_of_app. auto.
    + change (("" :: l1 ++ l2) !! S i) with ((l1 ++ l2) !! i) in Hi.
      assert (Hkey : key <> "").
      { intros ->. apply Hblank. apply list_elem_of_lookup. eauto. }
      split; [split; [discriminate|contradiction]|].
      rewrite Hin1, Hin2.
      destruct (decide (i < length l1)%nat) as [Hlt|Hge].
      * rewrite lookup_app_l in Hi by lia.
        assert (Hk1 : key ∈ l1) by (apply list_elem_of_lookup; eauto).
        split; split; try lia; try (intros; exact Hk1).
        intros Hk2. destruct (Hdisj key Hk1 Hk2).
      * rewrite lookup_app_r in Hi by lia.
        assert (Hk2 : key ∈ l2) by (apply list_elem_of_lookup; eauto).
        split; split; try lia; try (intros; exact Hk2).
        intros Hk1. destruct (Hdisj key Hk1 Hk2).
  - intros key [Hk|Hk]; right; apply elem_of_app.
    + left. apply Hin1. exact Hk.
    + right. apply Hin2. exact Hk.
  - intros key bv [Hk|Hk]; [exact (Hv1 key bv Hk)|exact (Hv2 key bv Hk)].
Qed.

Lemma length_filter_all {A : Type} (f : A -> bool) (l : list A) :
  (forall x : A, x ∈ l -> f x = true) -> List.filter f l = l.
Proof.
  induction l as [|x l IH]; intros Hall; [reflexivity|]. simpl.
  rewrite (Hall x (list_elem_of_here _ _)). f_equal. apply IH.
  intros y Hy. apply Hall. right. exact Hy.
Qed.

Lemma length_filter_none {A : Type} (f : A -> bool) (l : list A) :
  (forall x : A, x ∈ l -> f x = false) -> List.filter f l = [].
Proof.
  induction l as [|x l IH]; intros Hall; [reflexivity|]. simpl.
  rewrite (Hall x (list_elem_of_here _ _)). apply IH.
  intros y Hy. apply Hall. right. exact Hy.
Qed.

Lemma has_key_false (m : gmap string bool) (key : string) :
  has_key m key = false <-> ~ is_Some (m !! key).
Proof.
  rewrite <- has_key_true. destruct (has_key m key); split; congruence.
Qed.

(** How many entries of a generated dataset are keys of each map. *)
Lemma generateDataset_counts (uuid_New : nat -> string) (n : Z) :
  2 <= n ->
  (forall k : nat, uuid_New k <> "") ->
  NoDup (uuid_New <$> seq 0 (Z.to_nat (n - 1))) ->
  exists (ds : list string) (train test : gmap string bool),
    generateDataset uuid_New n = (ds, train, test) /\
    Z.of_nat (length ds) = n /\
    count_keys train ds = Z.quot n 2 /\
    count_keys test ds = n - Z.quot n 2 - 1 /\
    (forall key : string, is_Some (train !! key) -> key ∈ ds).
Proof.
  intros Hn Hne Hnd.
  destruct (generateDataset_layout uuid_New n Hn Hne Hnd)
    as (l1 & l2 & train & test & Hgen & Hl1 & Hl2 & Hin1 & Hin2 & Hblank & Hnd12).
  pose proof Hnd12 as (Hnd1 & Hdisj & Hnd2)%NoDup_app.
  exists ("" :: l1 ++ l2), train, test. split; [exact Hgen|].
  split; [cbn [length]; rewrite length_app; lia|].
  assert (Hb1 : has_key train "" = false).
  { apply has_key_false. rewrite Hin1. intros Hin. apply Hblank, elem_of_app. auto. }
  assert (Hb2 : has_key test "" = false).
  { apply has_key_false. rewrite Hin2. intros Hin. apply Hblank, elem_of_app. auto. }
  unfold count_keys. cbn [List.filter]. rewrite Hb1, Hb2, !List.filter_app.
  split; [|split].
  - rewrite (length_filter_all (has_key train) l1), (length_filter_none (has_key train) l2).
    + rewrite app_nil_r. exact Hl1.
    + intros key Hk. apply has_key_false. rewrite Hin1. intros Hk1.
      exact (Hdisj key Hk1 Hk).
    + intros key Hk. apply has_key_true, Hin1, Hk.
  - rewrite (length_filter_none (has_key test) l1), (length_filter_all (has_key test) l2).
    + exact Hl2.
    + intros key Hk. apply has_key_true, Hin2, Hk.
    + intros key Hk. apply has_key_false. rewrite Hin2. intros Hk2.
      exact (Hdisj key Hk Hk2).
  - intros key Hk. right. apply elem_of_app. left. apply Hin1, Hk.
Qed.

Section GeneratedTrial.
Context {H : Type} `{Hash128Laws H}.

(** X15 -- A trial on a generated dataset.  For [n >= 2], non-empty
    pairwise distinct identifiers and a size of at least 1, a trial on the
    value of [generateDataset n] returns with [truePositives = n/2]
    (every inserted key is found) and
    [0 <= falsePositives <= n - n/2 - 1]; hence twice [falsePositives] is
    less than the length of the dataset: the reported percentage stays
    below 50. *)
Theorem X15_PerformTests_on_generated (uuid_New : nat -> string) (n bloomSize : Z)
        (order : list string) :
  2 <= n ->
  (forall k : nat, uuid_New k <> "") ->
  NoDup (uuid_New <$> seq 0 (Z.to_nat (n - 1))) ->
  1 <= int32_of_int bloomSize ->
  (forall key : string,
     key ∈ order <-> is_Some (snd (fst (generateDataset uuid_New n)) !! key)) ->
  exists (ds : list string) (train test : gmap string bool)
         (fp : Z) (bloom : BloomFilter H),
    generateDataset uuid_New n = (ds, train, test) /\
    PerformTests_counts bloomSize ds train test order =
      Ok ((Z.quot n 2, fp), bloom) /\
    0 <= fp <= n - Z.quot n 2 - 1 /\
    2 * fp < Z.of_nat (length ds).
Proof.
  intros Hn Hne Hnd Hpos Horder.
  destruct (generateDataset_counts uuid_New n Hn Hne Hnd)
    as (ds & train & test & Hgen & Hlen & Hc1 & Hc2 & _).
  rewrite Hgen in Horder. cbn [fst snd] in Horder.
  destruct (PerformTests_counts_inv bloomSize ds train test order Hpos)
    as (bloom & Hinv & Hall & Hcounts).
  destruct (half_split n Hn) as (Ha & Hb & _).
  eexists ds, train, test, _, bloom. split; [exact Hgen|].
  assert (Htp : Z.of_nat (length (List.filter
             (fun key => tests_positive (int32_of_int bloomSize) bloom key
                         && has_key train key) ds)) = Z.quot n 2).
  { rewrite <- Hc1. unfold count_keys. f_equal. f_equal. apply List.filter_ext_in.
    intros key _. destruct (has_key train key) eqn:Hk.
    - rewrite Hall; [reflexivity|]. apply Horder, has_key_true. exact Hk.
    - apply andb_false_r. }
  rewrite Htp in Hcounts. split; [exact Hcounts|].
  assert (Hfp : Z.of_nat (length (List.filter
             (fun key => tests_positive (int32_of_int bloomSize) bloom key
                         && has_key test key) ds)) <= n - Z.quot n 2 - 1).
  { rewrite <- Hc2. unfold count_keys. apply inj_le, length_filter_le.
    intros key Hk. apply andb_true_iff in Hk. apply Hk. }
  pose proof (Z.quot_rem' n 2) as Hqr.
  pose proof (Z.rem_bound_pos n 2 ltac:(lia) ltac:(lia)) as Hrem.
  split; lia.
Qed.

End GeneratedTrial.

(** ** The sweep and the selection *)


Lemma sweep_within (bfsize B : Z) :
  bfsize <= B -> sweep bfsize B = bfsize :: sweep (bfsize + 10000) B.
Proof.
  intros Hle. funelim (sweep bfsize B); [reflexivity|lia].
Qed.




Section Selection.
Context {F : Type} `{Float64Order F}.

(** X17 -- The selection of the best record.  The loop at the end of
    [main] leaves [bestBloomFilter] nil exactly when there is no record;
    otherwise the record it keeps is one of the records, and no record has
    a strictly smaller ["percentageFalsePositives"]. *)
Theorem X17_bestBloomFilter_minimal (testResults : list (testResult F)) :
  (bestBloomFilter testResults = None <-> testResults = []) /\
  (forall best : testResult F,
     bestBloomFilter testResults = Some best ->
     best ∈ testResults /\
     forall r : testResult F,
       r ∈ testResults ->
       float64_ltb (percentageFalsePositives r) (percentageFalsePositives best) = false).
Proof.
  unfold bestBloomFilter.
  induction testResults as [|x l IH] using rev_ind.
  - split; [tauto|]. discriminate.
  - rewrite foldl_app. cbn [foldl]. destruct IH as [IHnil IHbest].
    split.
    { split.
      - destruct (foldl bestBloomFilter_step None l) as [b|];
          cbn [bestBloomFilter_step]; [|intros [=]].
        destruct (float64_ltb (percentageFalsePositives x)
                              (percentageFalsePositives b)); intros [=].
      - intros Heq. destruct l; discriminate Heq. }
    intros best Hbest.
    destruct (foldl bestBloomFilter_step None l) as [b|] eqn:Hfold.
    + destruct (IHbest b eq_refl) as [Hb Hmin].
      cbn [bestBloomFilter_step] in Hbest.
      destruct (float64_ltb (percentageFalsePositives x) (percentageFalsePositives b))
        eqn:Hlt; injection Hbest as <-.
      * split; [apply elem_of_app; right; left|].
        intros r [Hr|Hr%list_elem_of_singleton]%elem_of_app.
        -- destruct (float64_ltb (percentageFalsePositives r)
                                 (percentageFalsePositives x)) eqn:Hrx; [|reflexivity].
           rewrite <- (Hmin r Hr). symmetry.
           exact (float64_ltb_trans _ _ _ Hrx Hlt).
        -- subst r. apply float64_ltb_irrefl.
      * split; [apply elem_of_app; left; exact Hb|].
        intros r [Hr|Hr%list_elem_of_singleton]%elem_of_app.
        -- exact (Hmin r Hr).
        -- subst r. exact Hlt.
    + cbn [bestBloomFilter_step] in Hbest. injection Hbest as <-.
      assert (l = []) by (apply IHnil; reflexivity). subst l.
      split; [left|].
      intros r Hr%list_elem_of_singleton. subst r. apply float64_ltb_irrefl.
Qed.

End Selection.

Section MainTrials.
Context {H : Type} `{Hash128Laws H} {F : Type} `{Float64 F}.

(** X18 -- The trials of [main] all return.  With non-empty, pairwise
    distinct identifiers, each of the trials [main] starts on the dataset
    of 20,000 returns a record: its info carries the size of the trial
    and 8 hash functions, its [falsePositives] is between 0 and 9,999 and
    its percentage is the quotient of [100 * falsePositives] by 20,000.
    No trial panics. *)
Theorem X18_main_trials_return (uuid_New : nat -> string) (orders : Z -> list string) :
  (forall k : nat, uuid_New k <> "") ->
  NoDup (uuid_New <$> seq 0 (Z.to_nat (20000 - 1))) ->
  (forall (bfsize : Z) (key : string),
     bfsize ∈ main_sweep ->
     key ∈ orders bfsize <->
     is_Some (snd (fst (generateDataset uuid_New 20000)) !! key)) ->
  Forall2
    (fun (bfsize : Z) (outcome : result (testResult F)) =>
       exists fp : Z,
         0 <= fp <= 9999 /\
         outcome =
           Ok {| bloomInfo := {[ "size" := any_int32 bfsize;
                                 "totalHashFuncs" := any_int 8 ]};
                 falsePositives := fp;
                 percentageFalsePositives :=
                   float64_div
                     (float64_mul (float64_of_int 100) (float64_of_int fp))
                     (float64_of_int 20000) |})
    main_sweep (main_trials uuid_New orders).
Proof.
  intros Hne Hnd Horders.
  destruct (generateDataset_counts uuid_New 20000 ltac:(lia) Hne Hnd)
    as (ds & train & test & Hgen & Hlen & _ & Hc2 & _).
  unfold main_trials. rewrite Hgen in *. cbn [fst snd] in Horders.
  apply Forall2_fmap_r, Forall_Forall2_diag, Forall_forall.
  intros bfsize Hin. pose proof (Horders bfsize) as Horder.
  apply elem_of_sweep in Hin as Hk. destruct Hk as (k & Hk & Hs & Hle).
  assert (Hconv : int32_of_int bfsize = bfsize).
  { unfold int32_of_int. rewrite Z.mod_small; lia. }
  destruct (PerformTests_record_inv (F := F) bfsize ds train test (orders bfsize))
    as (tp & fp & bloom & _ & _ & Hfp & Hrec).
  - rewrite Hconv. lia.
  - intros key. apply Horder. exact Hin.
  - exists fp. split.
    + rewrite Hc2 in Hfp. change (Z.quot 20000 2) with 10000 in Hfp. lia.
    + rewrite Hrec, Hconv, Hlen. reflexivity.
Qed.

End MainTrials.

(** ** The stand-ins obey their contracts *)

#[global] Instance Q_float64_order : Float64Order QArith_base.Q.
Proof.
  split.
  - intros x. cbn. apply negb_false_iff, QArith_base.Qle_bool_iff,
      QArith_base.Qle_refl.
  - intros x y z Hxy Hyz. cbn in *.
    apply negb_true_iff in Hxy, Hyz. apply negb_true_iff.
    destruct (QArith_base.Qle_bool z x) eqn:Hzx; [|reflexivity].
    apply QArith_base.Qle_bool_iff in Hzx.
    assert (Hlt1 : QArith_base.Qlt x y).
    { apply QArith_base.Qnot_le_lt. intros Hle.
      apply QArith_base.Qle_bool_iff in Hle. congruence. }
    assert (Hlt2 : QArith_base.Qlt y z).
    { apply QArith_base.Qnot_le_lt. intros Hle.
      apply QArith_base.Qle_bool_iff in Hle. congruence. }
    destruct (QArith_base.Qlt_not_le x z); [|exact Hzx].
    exact (QArith_base.Qlt_trans x y z Hlt1 Hlt2).
Qed.

Lemma numbered_uuid_nonempty (k : nat) : numbered_uuid k <> "".
Proof. unfold numbered_uuid. simpl. discriminate. Qed.

Lemma numbered_uuid_NoDup (n : nat) : NoDup (numbered_uuid <$> seq 0 n).
Proof. apply (NoDup_fmap_2 numbered_uuid). apply NoDup_seq. Qed.

Lemma numbered_order_keys (n : Z) (key : string) :
  key ∈ numbered_order n <->
  is_Some (snd (fst (generateDataset numbered_uuid n)) !! key).
Proof. unfold numbered_order, numbered_train. rewrite elem_of_elements. apply elem_of_dom. Qed.

Lemma sample_train_keys (key : string) :
  key ∈ ["a"] <-> is_Some (sample_train !! key).
Proof.
  unfold sample_train. rewrite list_elem_of_singleton. split.
  - intros ->. rewrite lookup_singleton_eq. eauto.
  - intros [b Hb]. destruct (decide (key = "a")) as [|Hne]; [assumption|].
    rewrite lookup_singleton_ne in Hb by congruence. discriminate.
Qed.

(** ** The properties at concrete inputs *)

(** X1 on the run from [empty_filter10] to [sample_filter]. *)
Lemma X1_witness :
  0 <= 10 <= int32_max /\
  NewBloomFilter 10 = Ok empty_filter10 /\
  run [CallAdd "a"] empty_filter10 = Ok (tt, sample_filter) /\
  Size sample_filter = 10 /\
  Z.of_nat (length (Store sample_filter)) = 10 /\
  mHashers sample_filter = mHashers empty_filter10 /\
  Info sample_filter = Info empty_filter10 /\
  Info sample_filter = {[ "size" := any_int32 10; "totalHashFuncs" := any_int 8 ]}.
Proof.
  assert (Hs : 0 <= 10 <= int32_max) by (unfold int32_max; lia).
  assert (Hnew : NewBloomFilter 10 = Ok empty_filter10) by reflexivity.
  assert (Hrun : run [CallAdd "a"] empty_filter10 = Ok (tt, sample_filter))
    by reflexivity.
  split; [exact Hs|]. split; [exact Hnew|]. split; [exact Hrun|].
  exact (X1_configuration_fixed (H := PolyHash.t) 10 [CallAdd "a"]
           empty_filter10 sample_filter Hs Hnew Hrun).
Defined.

(** X2 on [empty_filter10] after an [Exists] and an [Info]. *)
Lemma X2_witness :
  1 <= 10 <= int32_max /\
  run [CallExists "a"; CallInfo] empty_filter10 = Ok (tt, empty_filter10) /\
  exists d : Z,
    ComputeMurmurHash "a" 0 empty_filter10 = Ok (d, empty_filter10) /\
    Exists "a" empty_filter10 = Ok ((d mod 10, false), empty_filter10).
Proof.
  assert (Hs : 1 <= 10 <= int32_max) by (unfold int32_max; lia).
  assert (Hrun : run [CallExists "a"; CallInfo] empty_filter10 = Ok (tt, empty_filter10))
    by reflexivity.
  split; [exact Hs|]. split; [exact Hrun|].
  apply (X2_nothing_added_all_rejected (H := PolyHash.t) 10
           [CallExists "a"; CallInfo] empty_filter10 empty_filter10 "a" Hs).
  - reflexivity.
  - exact Hrun.
  - intros k Hin. apply elem_of_cons in Hin as [Hin|Hin]; [discriminate|].
    apply elem_of_cons in Hin as [Hin|Hin]; [discriminate|]. inversion Hin.
Defined.

(** X3 on [sample_filter], bit 8. *)
Lemma X3_witness :
  1 <= 10 <= int32_max /\
  (Store sample_filter !! Z.to_nat 8 = Some true <->
   exists key : string, CallAdd key ∈ [CallAdd "a"] /\ hashes_to sample_filter key 8).
Proof.
  assert (Hs : 1 <= 10 <= int32_max) by (unfold int32_max; lia).
  split; [exact Hs|].
  apply (X3_set_bits_are_hashes_of_added_keys (H := PolyHash.t) 10 [CallAdd "a"]
           empty_filter10 sample_filter 8 Hs); [reflexivity|reflexivity|lia].
Defined.

(** X4 on [sample_filter], key ["b"]. *)
Lemma X4_witness :
  1 <= 10 <= int32_max /\
  exists (idx : Z) (b : bool),
    Exists "b" sample_filter = Ok ((idx, b), sample_filter) /\
    (b = true <->
     forall j : Z, hashes_to sample_filter "b" j ->
       exists key' : string,
         CallAdd key' ∈ [CallAdd "a"] /\ hashes_to sample_filter key' j).
Proof.
  assert (Hs : 1 <= 10 <= int32_max) by (unfold int32_max; lia).
  split; [exact Hs|].
  apply (X4_Exists_true_iff_indices_collide (H := PolyHash.t) 10 [CallAdd "a"]
           empty_filter10 sample_filter "b" Hs); reflexivity.
Defined.

(** X5 on [sample_filter], key ["a"]. *)
Lemma X5_witness :
  1 <= 10 <= int32_max /\
  reachable 10 sample_filter /\
  (Exists "a" sample_filter = Ok ((0, true), sample_filter) ->
   Add "a" sample_filter = Ok (tt, sample_filter)) /\
  (let* _ := Add "a" in Add "a") sample_filter = Add "a" sample_filter.
Proof.
  assert (Hs : 1 <= 10 <= int32_max) by (unfold int32_max; lia).
  assert (Hr : reachable 10 sample_filter).
  { exists empty_filter10, [CallAdd "a"]. split; reflexivity. }
  split; [exact Hs|]. split; [exact Hr|].
  exact (X5_Add_of_positive_key_is_noop (H := PolyHash.t) 10 sample_filter "a" Hs Hr).
Defined.

(** X6 on [sample_filter]: ["a"; "b"] against ["b"; "a"; "a"]. *)
Lemma X6_witness :
  1 <= 10 <= int32_max /\
  reachable 10 sample_filter /\
  exists bf' : BloomFilter PolyHash.t,
    run (CallAdd <$> ["a"; "b"]) sample_filter = Ok (tt, bf') /\
    run (CallAdd <$> ["b"; "a"; "a"]) sample_filter = Ok (tt, bf').
Proof.
  assert (Hs : 1 <= 10 <= int32_max) by (unfold int32_max; lia).
  assert (Hr : reachable 10 sample_filter).
  { exists empty_filter10, [CallAdd "a"]. split; reflexivity. }
  split; [exact Hs|]. split; [exact Hr|].
  apply (X6_Add_order_irrelevant (H := PolyHash.t) 10 sample_filter
           ["a"; "b"] ["b"; "a"; "a"] Hs Hr).
  intros k. rewrite !elem_of_cons, !elem_of_nil. tauto.
Defined.

(** X7 on [sample_filter], hash indices 3 and 8. *)
Lemma X7_witness :
  0 <= 10 <= int32_max /\
  reachable 10 sample_filter /\
  (exists d : Z, ComputeMurmurHash "a" 3 sample_filter = Ok (d, sample_filter)) /\
  ComputeMurmurHash "a" 8 sample_filter = Panic PanicIndexOutOfRange.
Proof.
  assert (Hs : 0 <= 10 <= int32_max) by (unfold int32_max; lia).
  assert (Hr : reachable 10 sample_filter).
  { exists empty_filter10, [CallAdd "a"]. split; reflexivity. }
  split; [exact Hs|]. split; [exact Hr|]. split.
  - apply (X7_ComputeMurmurHash_index_bounds (H := PolyHash.t) 10 sample_filter
             "a" 3 Hs Hr). lia.
  - apply (X7_ComputeMurmurHash_index_bounds (H := PolyHash.t) 10 sample_filter
             "a" 8 Hs Hr). lia.
Defined.

(** X8 on [sample_filter]. *)
Lemma X8_witness :
  1 <= 10 <= int32_max /\
  Z.of_nat (popcount (Store sample_filter)) <= 8 * Z.of_nat (length (added [CallAdd "a"])) /\
  Z.of_nat (popcount (Store sample_filter)) <= 10.
Proof.
  assert (Hs : 1 <= 10 <= int32_max) by (unfold int32_max; lia).
  split; [exact Hs|].
  apply (X8_popcount_bound (H := PolyHash.t) 10 [CallAdd "a"]
           empty_filter10 sample_filter Hs); reflexivity.
Defined.

(** X9 on [sample_filter], key ["a"], then [Add "c"]. *)
Lemma X9_witness :
  1 <= 10 <= int32_max /\
  reachable 10 sample_filter /\
  Exists "a" sample_filter = Ok ((0, true), sample_filter) /\
  exists bf' : BloomFilter PolyHash.t,
    run [CallAdd "c"] sample_filter = Ok (tt, bf') /\
    Exists "a" bf' = Ok ((0, true), bf').
Proof.
  assert (Hs : 1 <= 10 <= int32_max) by (unfold int32_max; lia).
  assert (Hr : reachable 10 sample_filter).
  { exists empty_filter10, [CallAdd "a"]. split; reflexivity. }
  assert (Hex : Exists "a" sample_filter = Ok ((0, true), sample_filter))
    by reflexivity.
  split; [exact Hs|]. split; [exact Hr|]. split; [exact Hex|].
  apply (X9_positive_stays_positive (H := PolyHash.t) 10 sample_filter
           [CallAdd "c"] "a" Hs Hr Hex).
  repeat constructor.
Defined.
(** X10 on the small dataset, size 10. *)
Lemma X10_witness :
  1 <= int32_of_int 10 /\
  exists (truePositives fp : Z) (bloom : BloomFilter PolyHash.t),
    PerformTests_counts 10 sample_dataset sample_train sample_test ["a"] =
      Ok ((truePositives, fp), bloom) /\
    truePositives = count_keys sample_train sample_dataset /\
    0 <= fp <= count_keys sample_test sample_dataset /\
    PerformTests (F := QArith_base.Q) 10 sample_dataset sample_train sample_test ["a"] =
      Ok {| bloomInfo := {[ "size" := any_int32 (int32_of_int 10);
                            "totalHashFuncs" := any_int 8 ]};
            falsePositives := fp;
            percentageFalsePositives :=
              float64_div
                (float64_mul (float64_of_int 100) (float64_of_int fp))
                (float64_of_int (Z.of_nat (length sample_dataset))) |}.
Proof.
  assert (Hs : 1 <= int32_of_int 10) by (vm_compute; discriminate).
  split; [exact Hs|].
  exact (X10_PerformTests_counts (H := PolyHash.t) (F := QArith_base.Q) 10
           sample_dataset sample_train sample_test ["a"] Hs sample_train_keys).
Defined.

(** X11 on the small dataset: two orders of the same keys. *)
Lemma X11_witness :
  PerformTests (H := PolyHash.t) (F := QArith_base.Q) 10
    sample_dataset sample_train sample_test ["a"; "c"] =
  PerformTests (H := PolyHash.t) (F := QArith_base.Q) 10
    sample_dataset sample_train sample_test ["c"; "a"].
Proof.
  apply (X11_PerformTests_order_irrelevant (H := PolyHash.t) (F := QArith_base.Q)).
  intros key. rewrite !elem_of_cons, !elem_of_nil. tauto.
Defined.

(** X12 on the small dataset: sizes [10 + 2^32], [2^31] and [2^32]. *)
Lemma X12_witness :
  PerformTests (H := PolyHash.t) (F := QArith_base.Q) (10 + 2 ^ 32 * 1)
    sample_dataset sample_train sample_test ["a"] =
  PerformTests (H := PolyHash.t) (F := QArith_base.Q) 10
    sample_dataset sample_train sample_test ["a"] /\
  PerformTests (H := PolyHash.t) (F := QArith_base.Q) (2 ^ 31)
    sample_dataset sample_train sample_test ["a"] = Panic PanicMakesliceLen /\
  PerformTests (H := PolyHash.t) (F := QArith_base.Q) (2 ^ 32)
    sample_dataset sample_train sample_test ["a"] = Panic PanicDivideByZero.
Proof.
  split; [|split].
  - exact (proj1 (X12_PerformTests_size_conversion (H := PolyHash.t)
                    (F := QArith_base.Q) 10
                    sample_dataset sample_train sample_test ["a"]) 1).
  - refine (proj1 (proj2 (X12_PerformTests_size_conversion (H := PolyHash.t)
                    (F := QArith_base.Q) (2 ^ 31)
                    sample_dataset sample_train sample_test ["a"])) _).
    vm_compute. reflexivity.
  - refine (proj2 (proj2 (X12_PerformTests_size_conversion (H := PolyHash.t)
                    (F := QArith_base.Q) (2 ^ 32)
                    sample_dataset sample_train sample_test ["a"])) _ _).
    + vm_compute. reflexivity.
    + left. discriminate.
Defined.

(** X13 at [n = 0] and numbered identifiers. *)
Lemma X13_witness :
  0 <= 1 /\ generateDataset numbered_uuid 0 = ([""], ∅, ∅).
Proof.
  assert (Hn : 0 <= 1) by lia.
  split; [exact Hn|]. exact (X13_generateDataset_small numbered_uuid 0 Hn).
Defined.

(** X14 at [n = 7] and numbered identifiers. *)
Lemma X14_witness :
  2 <= 7 /\
  exists (ds : list string) (train test : gmap string bool),
    generateDataset numbered_uuid 7 = (ds, train, test) /\
    NoDup ds /\
    (forall (i : nat) (key : string),
       ds !! i = Some key ->
       (i = 0%nat <-> key = "") /\
       (1 <= Z.of_nat i <= Z.quot 7 2 <-> is_Some (train !! key)) /\
       (Z.quot 7 2 < Z.of_nat i <-> is_Some (test !! key))) /\
    (forall key : string,
       is_Some (train !! key) \/ is_Some (test !! key) -> key ∈ ds) /\
    (forall (key : string) (b : bool),
       train !! key = Some b \/ test !! key = Some b -> b = true).
Proof.
  assert (Hn : 2 <= 7) by lia.
  split; [exact Hn|].
  exact (X14_generateDataset_partition numbered_uuid 7 Hn
           numbered_uuid_nonempty (numbered_uuid_NoDup _)).
Defined.

(** X15 at [n = 7], size 1000, numbered identifiers. *)
Lemma X15_witness :
  2 <= 7 /\ 1 <= int32_of_int 1000 /\
  exists (ds : list string) (train test : gmap string bool)
         (fp : Z) (bloom : BloomFilter PolyHash.t),
    generateDataset numbered_uuid 7 = (ds, train, test) /\
    PerformTests_counts 1000 ds train test (numbered_order 7) =
      Ok ((Z.quot 7 2, fp), bloom) /\
    0 <= fp <= 7 - Z.quot 7 2 - 1 /\
    2 * fp < Z.of_nat (length ds).
Proof.
  assert (Hn : 2 <= 7) by lia.
  assert (Hs : 1 <= int32_of_int 1000) by (vm_compute; discriminate).
  split; [exact Hn|]. split; [exact Hs|].
  exact (X15_PerformTests_on_generated (H := PolyHash.t) numbered_uuid 7 1000
           (numbered_order 7) Hn numbered_uuid_nonempty (numbered_uuid_NoDup _)
           Hs (numbered_order_keys 7)).
Defined.

(** X17 on two records: the one with the smaller percentage is kept. *)
Lemma X17_witness :
  (bestBloomFilter sample_results = None <-> sample_results = []) /\
  (forall best : testResult QArith_base.Q,
     bestBloomFilter sample_results = Some best ->
     best ∈ sample_results /\
     forall r : testResult QArith_base.Q,
       r ∈ sample_results ->
       float64_ltb (percentageFalsePositives r) (percentageFalsePositives best) = false).
Proof.
  exact (X17_bestBloomFilter_minimal (F := QArith_base.Q) sample_results).
Defined.

(** X18 on numbered identifiers, each trial ranging in [numbered_order]. *)
Lemma X18_witness :
  Forall2
    (fun (bfsize : Z) (outcome : result (testResult QArith_base.Q)) =>
       exists fp : Z,
         0 <= fp <= 9999 /\
         outcome =
           Ok {| bloomInfo := {[ "size" := any_int32 bfsize;
                                 "totalHashFuncs" := any_int 8 ]};
                 falsePositives := fp;
                 percentageFalsePositives :=
                   float64_div
                     (float64_mul (float64_of_int 100) (float64_of_int fp))
                     (float64_of_int 20000) |})
    main_sweep
    (main_trials (H := PolyHash.t) numbered_uuid (fun _ => numbered_order 20000)).
Proof.
  apply (X18_main_trials_return (H := PolyHash.t) (F := QArith_base.Q) numbered_uuid
           (fun _ => numbered_order 20000) numbered_uuid_nonempty
           (numbered_uuid_NoDup _)).
  intros bfsize key _. apply numbered_order_keys.
Defined.

(** The definitions of the trial at work. *)
Example sample_trial :
  PerformTests (H := PolyHash.t) (F := QArith_base.Q) 10
    sample_dataset sample_train sample_test ["a"] =
  Ok {| bloomInfo := {[ "size" := any_int32 10; "totalHashFuncs" := any_int 8 ]};
        falsePositives := 0;
        percentageFalsePositives :=
          QArith_base.Qdiv
            (QArith_base.Qmult (QArith_base.inject_Z 100) (QArith_base.inject_Z 0))
            (QArith_base.inject_Z 3) |}.
Proof. reflexivity. Qed.

Example sample_best :
  bestBloomFilter sample_results =
  Some {| bloomInfo := {[ "size" := any_int32 20; "totalHashFuncs" := any_int 8 ]};
          falsePositives := 1;
          percentageFalsePositives := QArith_base.Qmake 1 4 |}.
Proof. reflexivity. Qed.
